(** * instana2bhom: mapping resolver, event store, batch synchronisation
      and credential guard

    A shallow embedding of [events_db_vr2.py], [lib/commonutility.py] and
    [TimerTrigger/__init__.py].

    Conventions of the embedding.
    - A Python exception is a value [Raise e] of the [result] type; the
      [try]/[except] clauses of the source are pattern matches on it.
    - Documents decoded from JSON are values of [pyval].  A dict is an
      association list in insertion order, as Python keeps it.
    - Python strings are modelled by [string], one character per code point:
      the texts of the model are those whose code points lie below 256, and
      the white space, digit, case and escape tables are those of Python on
      that range (two letters have their capital above it, see
      [upper_char]).
    - Everything outside the process (the two HTTP services, the clock, the
      token file, the database) is an explicit argument or an explicit piece
      of state. *)

From Stdlib Require Import String Ascii List ZArith Bool Arith Lia DecimalString Permutation.
Import ListNotations.
Open Scope string_scope.
Open Scope nat_scope.
Set Warnings "-register-all".

(* ================================================================== *)
(** * Exceptions and results *)

Inductive exn : Type :=
| KeyError
| IndexError
| TypeError
| ValueError
| AttributeError
| RuntimeError
| JSONDecodeError
| RequestException
| HTTPError
| ProgrammingError
| DataError
| PlainException.

Inductive result (A : Type) : Type :=
| Ok (a : A)
| Raise (e : exn).

Arguments Ok {A} a.
Arguments Raise {A} e.

Definition bind {A B : Type} (c : result A) (k : A -> result B) : result B :=
  match c with
  | Ok a => k a
  | Raise e => Raise e
  end.

Notation "x <- c ;; k" := (bind c (fun x => k))
  (at level 61, c at next level, right associativity).

Definition is_ok {A : Type} (c : result A) : bool :=
  match c with
  | Ok _ => true
  | Raise _ => false
  end.

(* ================================================================== *)
(** * Python values *)

(** [PFloat r] is a binary64 number, named by its [repr] (the shortest
    literal that reads back to the same number), so that [str] of a float is
    the carried text and two floats are equal when their texts are. *)
Inductive pyval : Type :=
| PNone
| PBool (b : bool)
| PInt (n : Z)
| PFloat (r : string)
| PStr (s : string)
| PList (xs : list pyval)
| PDict (kvs : list (string * pyval)).

Definition is_none (v : pyval) : bool :=
  match v with
  | PNone => true
  | _ => false
  end.

(** [d.get(k)] on the entries of a dict. *)
Fixpoint dict_get (k : string) (kvs : list (string * pyval)) : option pyval :=
  match kvs with
  | [] => None
  | (k', v) :: rest => if String.eqb k k' then Some v else dict_get k rest
  end.

(** [d[k] = v] on the entries of a dict: an existing key keeps its place, a
    new key goes last. *)
Fixpoint dict_set (k : string) (v : pyval) (kvs : list (string * pyval))
  : list (string * pyval) :=
  match kvs with
  | [] => [(k, v)]
  | (k', v') :: rest =>
      if String.eqb k k' then (k, v) :: rest else (k', v') :: dict_set k v rest
  end.

(** Truth value of a document, as [not x] reads it. *)
Definition truthy (v : pyval) : bool :=
  match v with
  | PNone => false
  | PBool b => b
  | PInt n => negb (Z.eqb n 0)
  | PFloat r => negb (String.eqb r "0.0" || String.eqb r "-0.0")
  | PStr s => negb (String.eqb s "")
  | PList xs => match xs with [] => false | _ => true end
  | PDict kvs => match kvs with [] => false | _ => true end
  end.

(** [len(x)]: defined on strings, lists and dicts, [TypeError] otherwise. *)
Definition py_len (v : pyval) : result nat :=
  match v with
  | PStr s => Ok (String.length s)
  | PList xs => Ok (List.length xs)
  | PDict kvs => Ok (List.length kvs)
  | _ => Raise TypeError
  end.

(* ================================================================== *)
(** * String operations of the Python runtime *)

(** [s.startswith(p)]. *)
Definition startswith (p s : string) : bool := String.prefix p s.

(** [sub in s]. *)
Fixpoint py_in (sub s : string) : bool :=
  if String.prefix sub s then true
  else match s with
       | EmptyString => false
       | String _ s' => py_in sub s'
       end.

(** [s.split(sep)] for a non-empty [sep]: the text is read left to right and
    cut at each occurrence of [sep], occurrences not overlapping.  [skip]
    counts the characters of a matched separator still to be dropped, [cur]
    is the piece being read. *)
Fixpoint split_go (sep : string) (skip : nat) (cur s : string) : list string :=
  match s with
  | EmptyString => [cur]
  | String c s' =>
      match skip with
      | S k => split_go sep k cur s'
      | O =>
          if String.prefix sep s
          then cur :: split_go sep (String.length sep - 1) "" s'
          else split_go sep 0 (cur ++ String c "") s'
      end
  end.

Definition py_split (sep s : string) : list string := split_go sep 0 "" s.

(** [sep.join(parts)]. *)
Definition py_join (sep : string) (parts : list string) : string :=
  String.concat sep parts.

(** [s.replace(old, new)] for a non-empty [old], which is
    [new.join(s.split(old))]. *)
Definition py_replace (old new s : string) : string :=
  py_join new (py_split old s).

(** White space as [str.strip] and [str.isspace] see it below code point
    256: tab to carriage return, the four separators 28 to 31, the space,
    the next-line control 133 and the no-break space 160. *)
Definition is_space (c : ascii) : bool :=
  let n := nat_of_ascii c in
  ((9 <=? n) && (n <=? 13)) || ((28 <=? n) && (n <=? 31)) || (n =? 32)
  || (n =? 133) || (n =? 160).

Fixpoint lstrip_chars (cs : list ascii) : list ascii :=
  match cs with
  | c :: rest => if is_space c then lstrip_chars rest else cs
  | [] => []
  end.

(** [s.strip()]. *)
Definition py_strip (s : string) : string :=
  string_of_list_ascii
    (rev (lstrip_chars (rev (lstrip_chars (list_ascii_of_string s))))).

(** The capital of a character below code point 256: the letters a to z,
    the accented letters 224 to 254 (the division sign 247 is no letter),
    and the sharp s 223, whose capital is two letters.  The micro sign 181
    and the y with diaeresis 255 have their capitals above code point 255,
    outside the texts of the model: they are left as they are, and
    [upper_fits] tells the texts that hold neither. *)
Definition upper_char (c : ascii) : string :=
  let n := nat_of_ascii c in
  if (97 <=? n) && (n <=? 122) then String (ascii_of_nat (n - 32)) ""
  else if n =? 223 then "SS"
  else if (224 <=? n) && (n <=? 254) && negb (n =? 247)
       then String (ascii_of_nat (n - 32)) ""
       else String c "".

(** [s.upper()]. *)
Fixpoint py_upper (s : string) : string :=
  match s with
  | EmptyString => EmptyString
  | String c s' => upper_char c ++ py_upper s'
  end.

(** ** [int(text)] *)

Definition is_digit (c : ascii) : bool :=
  let n := nat_of_ascii c in (48 <=? n) && (n <=? 57).

Definition digit_val (c : ascii) : Z := Z.of_nat (nat_of_ascii c - 48).

(** White space as [int] skips it around the number: tab to carriage
    return and the space, and the white space above code point 127, which
    [int] reads as a space. *)
Definition is_int_space (c : ascii) : bool :=
  let n := nat_of_ascii c in
  ((9 <=? n) && (n <=? 13)) || (n =? 32) || (n =? 133) || (n =? 160).

Fixpoint lstrip_int (cs : list ascii) : list ascii :=
  match cs with
  | c :: rest => if is_int_space c then lstrip_int rest else cs
  | [] => []
  end.

(** Digits with single underscores between them; [after_digit] tells whether
    the previous character was a digit. *)
Fixpoint digits_value (acc : Z) (after_digit : bool) (cs : list ascii) : option Z :=
  match cs with
  | [] => if after_digit then Some acc else None
  | c :: rest =>
      if is_digit c then digits_value (acc * 10 + digit_val c) true rest
      else if Ascii.eqb c "_"
           then (if after_digit then digits_value acc false rest else None)
           else None
  end.

(** The interpreter refuses a text of more than this many digits. *)
Definition max_str_digits : nat := 4300.

(** [int(text)] in base ten: optional white space, an optional sign, digits. *)
Definition py_int (text : string) : result Z :=
  let cs := rev (lstrip_int (rev (lstrip_int (list_ascii_of_string text)))) in
  let '(neg, body) :=
    match cs with
    | c :: rest =>
        if Ascii.eqb c "-" then (true, rest)
        else if Ascii.eqb c "+" then (false, rest)
        else (false, cs)
    | [] => (false, cs)
    end in
  if max_str_digits <? List.length (filter is_digit body) then Raise ValueError
  else match digits_value 0 false body with
       | Some n => Ok (if neg then Z.opp n else n)
       | None => Raise ValueError
       end.

(** ** [str(x)] and [repr(x)] *)

Definition Z_to_string (n : Z) : string := NilZero.string_of_int (Z.to_int n).

Definition hex_digit (n : nat) : ascii :=
  if n <? 10 then ascii_of_nat (48 + n) else ascii_of_nat (87 + n).

Definition squote : ascii := ascii_of_nat 39.
Definition dquote : ascii := ascii_of_nat 34.
Definition backslash : ascii := ascii_of_nat 92.

Fixpoint has_char (c : ascii) (s : string) : bool :=
  match s with
  | EmptyString => false
  | String c' s' => Ascii.eqb c c' || has_char c s'
  end.

(** The escapes of [repr] for a string quoted with [q]: the characters that
    are not printable are those below 32, those from 127 to 160, and the
    soft hyphen 173. *)
Fixpoint repr_body (q : ascii) (s : string) : string :=
  match s with
  | EmptyString => EmptyString
  | String c s' =>
      let n := nat_of_ascii c in
      let rest := repr_body q s' in
      if Ascii.eqb c backslash then String backslash (String backslash rest)
      else if Ascii.eqb c q then String backslash (String q rest)
      else if n =? 9 then String backslash (String "t" rest)
      else if n =? 10 then String backslash (String "n" rest)
      else if n =? 13 then String backslash (String "r" rest)
      else if (n <? 32) || ((127 <=? n) && (n <=? 160)) || (n =? 173)
           then String backslash
                  (String "x" (String (hex_digit (n / 16)) (String (hex_digit (n mod 16)) rest)))
           else String c rest
  end.

(** [repr] of a string: single quotes, unless the text has a single quote
    and no double quote. *)
Definition repr_str (s : string) : string :=
  let q := if has_char squote s && negb (has_char dquote s) then dquote else squote in
  String q (repr_body q s ++ String q "").

Fixpoint py_repr (v : pyval) : string :=
  match v with
  | PNone => "None"
  | PBool b => if b then "True" else "False"
  | PInt n => Z_to_string n
  | PFloat r => r
  | PStr s => repr_str s
  | PList xs => "[" ++ py_join ", " (map py_repr xs) ++ "]"
  | PDict kvs =>
      "{" ++ py_join ", " (map (fun kv => repr_str (fst kv) ++ ": " ++ py_repr (snd kv)) kvs)
          ++ "}"
  end.

(** [str(x)], which is the text itself for a string and [repr] otherwise. *)
Definition py_str (v : pyval) : string :=
  match v with
  | PStr s => s
  | _ => py_repr v
  end.

(* ================================================================== *)
(** * Subscripts *)

(** [val[key]] with a string key. *)
Definition getitem_str (val : pyval) (key : string) : result pyval :=
  match val with
  | PDict kvs =>
      match dict_get key kvs with
      | Some v => Ok v
      | None => Raise KeyError
      end
  | _ => Raise TypeError
  end.

(** Position of index [i] in a sequence of [len] items, counting from the end
    when [i] is negative. *)
Definition seq_index (len : nat) (i : Z) : option nat :=
  let n := Z.of_nat len in
  if (0 <=? i)%Z && (i <? n)%Z then Some (Z.to_nat i)
  else if (Z.opp n <=? i)%Z && (i <? 0)%Z then Some (Z.to_nat (n + i))
  else None.

(** [val[i]] with an integer index.  A dict decoded from JSON has string keys
    only, so an integer is never one of its keys. *)
Definition getitem_int (val : pyval) (i : Z) : result pyval :=
  match val with
  | PList xs =>
      match seq_index (List.length xs) i with
      | Some k => match nth_error xs k with
                  | Some v => Ok v
                  | None => Raise IndexError
                  end
      | None => Raise IndexError
      end
  | PStr s =>
      match seq_index (String.length s) i with
      | Some k => match String.get k s with
                  | Some c => Ok (PStr (String c ""))
                  | None => Raise IndexError
                  end
      | None => Raise IndexError
      end
  | PDict _ => Raise KeyError
  | _ => Raise TypeError
  end.

(* ================================================================== *)
(** * The mapping resolver ([events_db_vr2.py]) *)

(** ** Custom mappers *)

(** [sev == 5]: the integer five, or the float five. *)
Definition eq_five (sev : pyval) : bool :=
  match sev with
  | PInt n => Z.eqb n 5
  | PFloat r => String.eqb r "5.0"
  | _ => false
  end.

Definition severity_level (sev : pyval) : result pyval :=
  Ok (PStr (if eq_five sev then "CRITICAL" else "WARNING")).

(** [state.upper()]: only a string has the method. *)
Definition uppercase_state (state : pyval) : result pyval :=
  match state with
  | PStr s => Ok (PStr (py_upper s))
  | _ => Raise AttributeError
  end.

Definition priority_from_severity (sev : pyval) : result pyval :=
  Ok (PStr ("PRIORITY_" ++ py_str sev)).

Definition CUSTOM_FUNCTIONS : list (string * (pyval -> result pyval)) :=
  [ ("severity_level", severity_level);
    ("uppercase_state", uppercase_state);
    ("priority_from_severity", priority_from_severity) ].

Fixpoint registry_get (name : string) (reg : list (string * (pyval -> result pyval)))
  : option (pyval -> result pyval) :=
  match reg with
  | [] => None
  | (n, f) :: rest => if String.eqb name n then Some f else registry_get name rest
  end.

(** ** [insert_nested_key] *)

(** The loop over [keys[:-1]] followed by the assignment to [keys[-1]].
    [setdefault] needs a dict ([AttributeError] otherwise) and the final
    assignment with a string key needs one too ([TypeError] otherwise).
    The source updates the dicts in place and the function returns the
    updated payload.  A dict that the resolver created for this payload is
    seen through the payload only.  A dict that an earlier [event_data:]
    rule took from the event is shared with the event, which the source
    would update as well; the function updates the payload alone.  The two
    agree on the mappings of [keys_private], which never write into such a
    dict; the statements below that assume a resolution are about those
    mappings. *)
Fixpoint insert_keys (d : pyval) (keys : list string) (value : pyval) : result pyval :=
  match keys with
  | [] => Raise IndexError
  | [k] =>
      match d with
      | PDict kvs => Ok (PDict (dict_set k value kvs))
      | _ => Raise TypeError
      end
  | k :: rest =>
      match d with
      | PDict kvs =>
          let child := match dict_get k kvs with
                       | Some c => c
                       | None => PDict []
                       end in
          child' <- insert_keys child rest value ;;
          Ok (PDict (dict_set k child' kvs))
      | _ => Raise AttributeError
      end
  end.

Definition insert_nested_key (d : pyval) (dotted_key : string) (value : pyval)
  : result pyval :=
  insert_keys d (py_split "." dotted_key) value.

(** ** [bhom_mapping_reverse_lookup] *)

Definition reverse_map : list (string * string) :=
  [ ("severity", "severity");
    ("status", "state");
    ("priority", "severity");
    ("class_slots.pn_severity", "severity") ].

Fixpoint assoc_get (k : string) (tbl : list (string * string)) : option string :=
  match tbl with
  | [] => None
  | (k', v) :: rest => if String.eqb k k' then Some v else assoc_get k rest
  end.

Definition bhom_mapping_reverse_lookup (field : string) : string :=
  match assoc_get field reverse_map with
  | Some src => src
  | None => field
  end.

(** ** [get_nested_value] *)

(** The body of the [for part in parts] loop.  A part with a bracket is
    unpacked into exactly two pieces ([ValueError] otherwise); [val[key]] is
    evaluated before [int(idx)]. *)
Fixpoint walk_parts (val : pyval) (parts : list string) : result pyval :=
  match parts with
  | [] => Ok val
  | part :: rest =>
      if py_in "[" part then
        match py_split "[" part with
        | [key; idx] =>
            inner <- getitem_str val key ;;
            i <- py_int idx ;;
            item <- getitem_int inner i ;;
            walk_parts item rest
        | _ => Raise ValueError
        end
      else
        item <- getitem_str val part ;;
        walk_parts item rest
  end.

(** The handler catches [KeyError], [IndexError] and [TypeError] and answers
    [None]; any other exception leaves the function. *)
Definition get_nested_value (data : pyval) (key_path : string) : result pyval :=
  match walk_parts data (py_split "." (py_replace "]" "" key_path)) with
  | Ok v => Ok v
  | Raise KeyError | Raise IndexError | Raise TypeError => Ok PNone
  | Raise e => Raise e
  end.

(** ** [resolve_bhom_mapping] *)

(** [lst[1]]. *)
Definition second (pieces : list string) : result string :=
  match nth_error pieces 1 with
  | Some s => Ok s
  | None => Raise IndexError
  end.

(** [next((get_nested_value(event_data, key.strip()) for key in keys
          if get_nested_value(event_data, key.strip()) is not None), "")]:
    each key is looked up for the test and, when the test passes, once more
    for the value. *)
Fixpoint first_present (event_data : pyval) (keys : list string) : result pyval :=
  match keys with
  | [] => Ok (PStr "")
  | key :: rest =>
      probe <- get_nested_value event_data (py_strip key) ;;
      if is_none probe then first_present event_data rest
      else get_nested_value event_data (py_strip key)
  end.

(** The [if]/[elif] chain that computes [value] for one entry of the mapping.
    A rule that is not a string has no [startswith]. *)
Definition rule_value (event_data : pyval) (bhom_field : string) (rule : pyval)
  : result pyval :=
  match rule with
  | PStr rule =>
      if startswith "static:" rule then
        lit <- second (py_split "static:" rule) ;;
        Ok (PStr lit)
      else if startswith "event_data:" rule then
        chain <- second (py_split "event_data:" rule) ;;
        first_present event_data (py_split "|" chain)
      else if startswith "func:" rule then
        name <- second (py_split "func:" rule) ;;
        let func_name := py_strip name in
        let source_key := bhom_mapping_reverse_lookup bhom_field in
        raw_value <- get_nested_value event_data source_key ;;
        match registry_get func_name CUSTOM_FUNCTIONS with
        | Some f => f raw_value
        | None => Ok (PStr "")
        end
      else Ok (PStr "")
  | _ => Raise AttributeError
  end.

Fixpoint resolve_items (event_data payload : pyval) (items : list (string * pyval))
  : result pyval :=
  match items with
  | [] => Ok payload
  | (bhom_field, rule) :: rest =>
      value <- rule_value event_data bhom_field rule ;;
      payload' <- insert_nested_key payload bhom_field value ;;
      resolve_items event_data payload' rest
  end.

Definition resolve_bhom_mapping (event_data : pyval) (mapping_config : list (string * pyval))
  : result (list pyval) :=
  payload <- resolve_items event_data (PDict []) mapping_config ;;
  Ok [payload].

(* ================================================================== *)
(** * HTTP exchanges *)

(** What [response.json()] finds in the body. *)
Inductive http_body : Type :=
| JsonBody (v : pyval)
| NotJson.

(** What a call of [requests] comes back with: an exception of the
    transport, or a response. *)
Inductive http_outcome : Type :=
| NoResponse
| Response (status_code : Z) (body : http_body).

(** [response.raise_for_status()]. *)
Definition raise_for_status (status_code : Z) : result unit :=
  if (400 <=? status_code)%Z && (status_code <? 600)%Z then Raise HTTPError else Ok tt.

(** [response.json()]. *)
Definition response_json (body : http_body) : result pyval :=
  match body with
  | JsonBody v => Ok v
  | NotJson => Raise JSONDecodeError
  end.

(** [x.get(key, default)]: only a dict has the method. *)
Definition py_get (x : pyval) (key : string) (default : pyval) : result pyval :=
  match x with
  | PDict kvs =>
      match dict_get key kvs with
      | Some v => Ok v
      | None => Ok default
      end
  | _ => Raise AttributeError
  end.

(* ================================================================== *)
(** * Dates ([datetime]) *)

(** A naive date-time, in microseconds since 1970-01-01 00:00:00. *)
Definition datetime : Type := Z.

Definition usec_per_second : Z := 1000000.
Definition usec_per_day : Z := 86400 * usec_per_second.

Definition is_leap (y : Z) : bool :=
  ((y mod 4 =? 0) && negb (y mod 100 =? 0) || (y mod 400 =? 0))%Z.

Definition days_in_month (y m : Z) : Z :=
  (if m =? 2 then (if is_leap y then 29 else 28)
   else if (m =? 4) || (m =? 6) || (m =? 9) || (m =? 11) then 30 else 31)%Z.

(** Days from 1970-01-01 to the given day of the proleptic Gregorian
    calendar. *)
Definition days_from_civil (y m d : Z) : Z :=
  (let y' := if m <=? 2 then y - 1 else y in
   let era := y' / 400 in
   let yoe := y' - era * 400 in
   let mp := if 2 <? m then m - 3 else m + 9 in
   let doy := (153 * mp + 2) / 5 + d - 1 in
   let doe := yoe * 365 + yoe / 4 - yoe / 100 + doy in
   era * 146097 + doe - 719468)%Z.

Definition civil_from_days (z : Z) : Z * Z * Z :=
  (let z' := z + 719468 in
   let era := z' / 146097 in
   let doe := z' - era * 146097 in
   let yoe := (doe - doe / 1460 + doe / 36524 - doe / 146096) / 365 in
   let doy := doe - (365 * yoe + yoe / 4 - yoe / 100) in
   let mp := (5 * doy + 2) / 153 in
   let d := doy - (153 * mp + 2) / 5 + 1 in
   let m := if mp <? 10 then mp + 3 else mp - 9 in
   let y := yoe + era * 400 in
   (if m <=? 2 then y + 1 else y, m, d))%Z.

Definition pad2 (n : Z) : string :=
  if (n <? 10)%Z then "0" ++ Z_to_string n else Z_to_string n.

Definition pad4 (n : Z) : string :=
  (if n <? 10 then "000" else if n <? 100 then "00" else if n <? 1000 then "0" else "")%Z
  ++ Z_to_string n.

(** [t.strftime("%Y-%m-%d %H:%M:%S")]: the microseconds are dropped. *)
Definition strftime (t : datetime) : string :=
  let days := (t / usec_per_day)%Z in
  let secs := ((t mod usec_per_day) / usec_per_second)%Z in
  let '(y, m, d) := civil_from_days days in
  pad4 y ++ "-" ++ pad2 m ++ "-" ++ pad2 d ++ " "
  ++ pad2 (secs / 3600)%Z ++ ":" ++ pad2 ((secs / 60) mod 60)%Z ++ ":" ++ pad2 (secs mod 60)%Z.

(** The leading digits of a text and what follows them. *)
Fixpoint span_digits (cs : list ascii) : list ascii * list ascii :=
  match cs with
  | c :: rest =>
      if is_digit c then let '(ds, tl) := span_digits rest in (c :: ds, tl) else ([], cs)
  | [] => ([], [])
  end.

Definition digits_number (ds : list ascii) : Z :=
  fold_left (fun acc c => (acc * 10 + digit_val c)%Z) ds 0%Z.

(** A field of [width] digits at most (exactly four for the year) whose
    value lies between [lo] and [hi]. *)
Definition read_field (width : nat) (lo hi : Z) (cs : list ascii) : option (Z * list ascii) :=
  let '(ds, tl) := span_digits cs in
  let n := digits_number ds in
  let len := List.length ds in
  if (if width =? 4 then len =? 4 else (1 <=? len) && (len <=? width))
     && (lo <=? n)%Z && (n <=? hi)%Z
  then Some (n, tl) else None.

Definition expect (c : ascii) (cs : list ascii) : option (list ascii) :=
  match cs with
  | c' :: rest => if Ascii.eqb c c' then Some rest else None
  | [] => None
  end.

(** One or more white space characters. *)
Definition expect_spaces (cs : list ascii) : option (list ascii) :=
  match cs with
  | c :: rest => if is_space c then Some (lstrip_chars rest) else None
  | [] => None
  end.

(** The day of the month also reads as a space and one digit. *)
Definition read_day (cs : list ascii) : option (Z * list ascii) :=
  match cs with
  | c :: d :: rest =>
      if Ascii.eqb c " " && is_digit d && negb (Ascii.eqb d "0")
         && match rest with r :: _ => negb (is_digit r) | [] => true end
      then Some (digit_val d, rest)
      else read_field 2 1 31 cs
  | _ => read_field 2 1 31 cs
  end.

(** [datetime.strptime(text, "%Y-%m-%d %H:%M:%S")] on a string: the parsed
    date-time, or [None] where the library raises [ValueError]. *)
Definition strptime (text : string) : option datetime :=
  match read_field 4 0 9999 (list_ascii_of_string text) with
  | None => None
  | Some (y, r1) =>
  match expect "-" r1 with None => None | Some r2 =>
  match read_field 2 1 12 r2 with None => None | Some (m, r3) =>
  match expect "-" r3 with None => None | Some r4 =>
  match read_day r4 with None => None | Some (d, r5) =>
  match expect_spaces r5 with None => None | Some r6 =>
  match read_field 2 0 23 r6 with None => None | Some (hh, r7) =>
  match expect ":" r7 with None => None | Some r8 =>
  match read_field 2 0 59 r8 with None => None | Some (mi, r9) =>
  match expect ":" r9 with None => None | Some r10 =>
  match read_field 2 0 59 r10 with None => None | Some (ss, r11) =>
  match r11 with
  | [] =>
      if (1 <=? y)%Z && (d <=? days_in_month y m)%Z
      then Some ((days_from_civil y m d * 86400 + hh * 3600 + mi * 60 + ss) * usec_per_second)%Z
      else None
  | _ => None
  end end end end end end end end end end end end.

(* ================================================================== *)
(** * The credential guard ([lib/commonutility.py]) *)

(** What is found at [json_path]: no file, a file of length zero, a file
    that is not JSON, or a JSON document. *)
Inductive token_file : Type :=
| NoFile
| EmptyFile
| Garbled
| JsonFile (data : pyval).

(** The [try] block of [_create_new_refresh_token] up to the token. *)
Definition request_new_token (response : http_outcome) : result pyval :=
  match response with
  | NoResponse => Raise RequestException
  | Response status_code body =>
      _ <- raise_for_status status_code ;;
      doc <- response_json body ;;
      new_token <- py_get doc "json_web_token" PNone ;;
      if negb (truthy new_token) then Raise PlainException else Ok new_token
  end.

(** [_create_new_refresh_token]: the token is written under the key
    [refresh_token], with the time of writing.  Every exception of the
    block is raised again as [RuntimeError], the file left as it was. *)
Definition _create_new_refresh_token
    (response : http_outcome) (now : datetime) (file : token_file)
  : result pyval * token_file :=
  match request_new_token response with
  | Ok new_token =>
      let data := PDict [("time", PStr (strftime now)); ("refresh_token", new_token)] in
      (Ok new_token, JsonFile data)
  | Raise _ => (Raise RuntimeError, file)
  end.

(** Step 2 and step 3 of [get_valid_refresh_token] on the decoded file:
    [Ok (Some token)] when the stored token is returned, [Ok None] when the
    file is older than ten minutes. *)
Definition read_stored_token (data : pyval) (current_time : datetime)
  : result (option pyval) :=
  stamp <- py_get data "time" (PStr "") ;;
  match stamp with
  | PStr text =>
      match strptime text with
      | None => Raise ValueError
      | Some last_time =>
          (* diff_minutes > 10, the difference counted in microseconds *)
          if (600 * usec_per_second <? current_time - last_time)%Z then Ok None
          else
            token <- getitem_str data "json_web_token" ;;
            Ok (Some token)
      end
  | _ => Raise TypeError
  end.

(** [get_valid_refresh_token].  The result comes with the file as it is left
    and the number of calls made to the refresh service.  [current_time] is
    the clock read when the age is computed, [write_time] the clock read
    when a new token is written. *)
Definition get_valid_refresh_token
    (file : token_file) (current_time : datetime)
    (response : http_outcome) (write_time : datetime)
  : result pyval * token_file * nat :=
  let create :=
    let '(r, file') := _create_new_refresh_token response write_time file in
    (r, file', 1) in
  match file with
  | NoFile | EmptyFile => create
  | Garbled => create
  | JsonFile data =>
      match read_stored_token data current_time with
      | Ok (Some token) => (Ok token, file, 0)
      | Ok None => create
      | Raise JSONDecodeError | Raise ValueError | Raise KeyError => create
      | Raise _ => (Raise RuntimeError, file, 0)
      end
  end.

(* ================================================================== *)
(** * The event store (table [instana_events]) *)

Inductive event_status : Type :=
| RECEIVED
| CREATED
| FAILED.

Definition status_eqb (a b : event_status) : bool :=
  match a, b with
  | RECEIVED, RECEIVED | CREATED, CREATED | FAILED, FAILED => true
  | _, _ => false
  end.

(** A row: [event_id] is a nullable text column with a uniqueness
    constraint, [event_json] the stored document.  The serial number and the
    two timestamps, which the program never reads, are left out. *)
Record row : Type := {
  event_id : option string;
  event_json : pyval;
  status : event_status
}.

Definition table : Type := list row.

(** [a = b] in SQL: never true when either side is null. *)
Definition sql_eq (a b : option string) : bool :=
  match a, b with
  | Some x, Some y => String.eqb x y
  | _, _ => false
  end.

(** A connection holds the committed table and the table as the open
    transaction sees it. *)
Record connection : Type := {
  committed : table;
  working : table
}.

Definition get_db_connection (t : table) : connection :=
  {| committed := t; working := t |}.

Definition commit (conn : connection) : connection :=
  {| committed := working conn; working := working conn |}.

(** [UPDATE instana_events SET status=st WHERE event_id=ev_id]. *)
Definition update_status (st : event_status) (t : table) (ev_id : option string) : table :=
  map (fun r =>
         if sql_eq (event_id r) ev_id
         then {| event_id := event_id r; event_json := event_json r; status := st |}
         else r) t.

(** [cur.executemany] of that statement over the identifiers of a batch. *)
Definition executemany_update (st : event_status) (event_ids : list (option string))
    (conn : connection) : connection :=
  {| committed := committed conn;
     working := fold_left (update_status st) event_ids (working conn) |}.

(** One row of [INSERT ... ON CONFLICT (event_id) DO NOTHING]. *)
Definition insert_event (t : table) (ev : option string * pyval) : table :=
  if existsb (fun r => sql_eq (event_id r) (fst ev)) t then t
  else (t ++ [{| event_id := fst ev; event_json := snd ev; status := RECEIVED |}])%list.

(** What a [JSONB] column takes: a document none of whose strings (keys
    included) holds the character of code 0, and none of whose numbers is a
    not-a-number or an infinity, which [json.dumps] writes as words that are
    no JSON. *)
Fixpoint storable (v : pyval) : bool :=
  match v with
  | PNone | PBool _ | PInt _ => true
  | PFloat r => negb (String.eqb r "nan" || String.eqb r "inf" || String.eqb r "-inf")
  | PStr s => negb (has_char zero s)
  | PList xs => forallb storable xs
  | PDict kvs => forallb (fun kv => negb (has_char zero (fst kv)) && storable (snd kv)) kvs
  end.

(** [execute_values] of the [INSERT] over the rows of an answer, one
    statement: when the database refuses a document, the statement fails as
    a whole and nothing of it is kept. *)
Definition execute_values (rows : list (option string * pyval)) (conn : connection)
  : result connection :=
  if forallb (fun row => storable (snd row)) rows
  then Ok {| committed := committed conn;
             working := fold_left insert_event rows (working conn) |}
  else Raise DataError.

(** [SELECT event_id, event_json ... WHERE status in ('RECEIVED','FAILED')].
    The statement has no [ORDER BY]: the rows come in the order of the
    table here, and the database is free to return them in another. *)
Definition select_pending (t : table) : list (option string * pyval) :=
  map (fun r => (event_id r, event_json r))
      (filter (fun r => status_eqb (status r) RECEIVED || status_eqb (status r) FAILED) t).

(* ================================================================== *)
(** * Ingestion ([fetch_instana_events]) *)

(** The items a [for] loop draws from a document. *)
Definition py_iter (v : pyval) : result (list pyval) :=
  match v with
  | PList xs => Ok xs
  | PDict kvs => Ok (map (fun kv => PStr (fst kv)) kvs)
  | PStr s => Ok (map (fun c => PStr (String c "")) (list_ascii_of_string s))
  | _ => Raise TypeError
  end.

(** [[ev for ev in events if ev["state"] == "open"]]. *)
Fixpoint open_events_of (events : list pyval) : result (list pyval) :=
  match events with
  | [] => Ok []
  | ev :: rest =>
      state <- getitem_str ev "state" ;;
      others <- open_events_of rest ;;
      Ok (match state with
          | PStr s => if String.eqb s "open" then ev :: others else others
          | _ => others
          end)
  end.

(** The driver's rendering of an identifier for the text column.  A missing
    identifier is null; a string is itself, and is refused ([ValueError])
    when it holds the character of code 0.  A number or a truth value is
    stored as a text, taken here to be its usual writing (the database
    writes a float in exponent form with all its digits instead).  The
    driver has no rendering for a dict; a list, which it would send as an
    array, is treated alike.  The statements below that name the text of an
    identifier are about string identifiers. *)
Definition adapt_event_id (v : pyval) : result (option string) :=
  match v with
  | PNone => Ok None
  | PStr s => if has_char zero s then Raise ValueError else Ok (Some s)
  | PInt n => Ok (Some (Z_to_string n))
  | PFloat r => Ok (Some r)
  | PBool b => Ok (Some (if b then "true" else "false"))
  | PList _ | PDict _ => Raise ProgrammingError
  end.

(** [(event.get("eventId"), json.dumps(event), "RECEIVED")] for each open
    event.  The stored document is the event itself: what the database does
    to a document it stores (order of keys, format of numbers) is not
    modelled. *)
Fixpoint open_events_data (open_events : list pyval) : result (list (option string * pyval)) :=
  match open_events with
  | [] => Ok []
  | event :: rest =>
      raw_id <- py_get event "eventId" PNone ;;
      ev_id <- adapt_event_id raw_id ;;
      others <- open_events_data rest ;;
      Ok ((ev_id, event) :: others)
  end.

(** What the function logs at its end. *)
Inductive fetch_log : Type :=
| Stored (n : nat)
| FetchFailed (e : exn).

(** The [try] block of [fetch_instana_events]: the rows to insert. *)
Definition fetched_rows (response : http_outcome) : result (list (option string * pyval)) :=
  match response with
  | NoResponse => Raise RequestException
  | Response status_code body =>
      _ <- raise_for_status status_code ;;
      events <- response_json body ;;
      _ <- py_len events ;;
      items <- py_iter events ;;
      open_events <- open_events_of items ;;
      open_events_data open_events
  end.

(** [fetch_instana_events]: the insertion is committed when the block ends
    without an exception; otherwise (the request, the decoding, the
    filter, or the insertion raised) the exception is logged and nothing is
    stored. *)
Definition fetch_instana_events (response : http_outcome) (t : table) : table * fetch_log :=
  match (rows <- fetched_rows response ;;
         conn <- execute_values rows (get_db_connection t) ;;
         Ok (commit conn, List.length rows)) with
  | Ok (conn, n) => (committed conn, Stored n)
  | Raise e => (t, FetchFailed e)
  end.

(* ================================================================== *)
(** * Batch synchronisation ([process_events_in_batches]) *)

(** [range(0, n, step)] for a step that is not negative; a step of zero is
    refused. *)
Definition py_range (n step : nat) : result (list nat) :=
  if step =? 0 then Raise ValueError
  else Ok (map (fun k => k * step) (seq 0 ((n + step - 1) / step))).

(** [events[i:i + batch_size]]. *)
Definition slice {A : Type} (events : list A) (i batch_size : nat) : list A :=
  firstn batch_size (skipn i events).

(** [[resolve_bhom_mapping(ev_json, bhom_config)[0] for _, ev_json in batch]]. *)
Fixpoint resolve_batch (bhom_config : list (string * pyval))
    (batch : list (option string * pyval)) : result (list pyval) :=
  match batch with
  | [] => Ok []
  | (_, ev_json) :: rest =>
      resolved <- resolve_bhom_mapping ev_json bhom_config ;;
      first <- match resolved with
               | p :: _ => Ok p
               | [] => Raise IndexError
               end ;;
      others <- resolve_batch bhom_config rest ;;
      Ok (first :: others)
  end.

(** [len(response.json().get("resourceId", []))]: the number of resources
    the service reports as created. *)
Definition reported_count (body : http_body) : result nat :=
  resp_json <- response_json body ;;
  created <- py_get resp_json "resourceId" (PList []) ;;
  py_len created.

(** The [try] block of a batch: the status to write, or the exception that
    the handler catches. *)
Definition batch_verdict (response : http_outcome) (batch_len : nat) : result event_status :=
  match response with
  | NoResponse => Raise RequestException
  | Response status_code body =>
      if (status_code =? 200)%Z then
        resource_count <- reported_count body ;;
        if negb (resource_count =? batch_len) then Ok FAILED else Ok CREATED
      else Ok FAILED
  end.

(** [try] / [except Exception] / [finally: conn.commit()] of a batch. *)
Definition submit_batch (response : http_outcome)
    (batch : list (option string * pyval)) (conn : connection) : connection :=
  let event_ids := map fst batch in
  let st := match batch_verdict response (List.length batch) with
            | Ok st => st
            | Raise _ => FAILED
            end in
  commit (executemany_update st event_ids conn).

(** The downstream service: its answer to the [n]-th request of a run, sent
    with the given [Authorization] header and the given payload. *)
Definition bhom_service : Type := nat -> string -> list pyval -> http_outcome.

(** The [for i in range(...)] loop.  [n] counts the requests sent so far.
    The payload is resolved outside the [try] block, so an exception of the
    resolver leaves the loop. *)
Fixpoint batch_loop (post : bhom_service) (authorization : string)
    (bhom_config : list (string * pyval)) (events : list (option string * pyval))
    (batch_size : nat) (starts : list nat) (n : nat) (conn : connection)
  : result unit * connection :=
  match starts with
  | [] => (Ok tt, conn)
  | i :: rest =>
      let batch := slice events i batch_size in
      match resolve_batch bhom_config batch with
      | Raise e => (Raise e, conn)
      | Ok batch_payload =>
          let conn' := submit_batch (post n authorization batch_payload) batch conn in
          batch_loop post authorization bhom_config events batch_size rest (S n) conn'
      end
  end.

(** What a run finds outside the process. *)
Record environment : Type := {
  instana_response : http_outcome;
  current_time : datetime;
  refresh_response : http_outcome;
  write_time : datetime;
  bhom_post : bhom_service
}.

(** What a run leaves behind: the committed table and the token file. *)
Record world : Type := {
  db : table;
  token : token_file
}.

(** [process_events_in_batches].  The token is asked for first; the
    connection is opened after it.  What reaches the database is what was
    committed: an exception drops the connection and its open transaction. *)
Definition process_events_in_batches (env : environment)
    (bhom_config : list (string * pyval)) (events : list (option string * pyval))
    (batch_size : nat) (w : world) : result unit * world :=
  let '(tok, file, _) :=
    get_valid_refresh_token (token w) (current_time env)
                            (refresh_response env) (write_time env) in
  match tok with
  | Raise e => (Raise e, {| db := db w; token := file |})
  | Ok refresh_token =>
      let authorization := "Bearer " ++ py_str refresh_token in
      let conn := get_db_connection (db w) in
      match py_range (List.length events) batch_size with
      | Raise e => (Raise e, {| db := committed conn; token := file |})
      | Ok starts =>
          let '(r, conn') :=
            batch_loop (bhom_post env) authorization bhom_config events batch_size
                       starts 0 conn in
          (r, {| db := committed conn'; token := file |})
      end
  end.

Definition default_batch_size : nat := Z.to_nat 8500.

(** [process_all_events]. *)
Definition process_all_events (env : environment) (bhom_config : list (string * pyval))
    (w : world) : result unit * world :=
  match select_pending (db w) with
  | [] => (Ok tt, w)
  | rows => process_events_in_batches env bhom_config rows default_batch_size w
  end.

(** [init_db]: [CREATE TABLE IF NOT EXISTS] leaves the table as it is. *)
Definition init_db (t : table) : table := t.

(** [run_pipeline] of the timer trigger; [main] of the script is the same
    sequence. *)
Definition run_pipeline (env : environment) (bhom_config : list (string * pyval))
    (w : world) : result unit * world :=
  let '(t, _) := fetch_instana_events (instana_response env) (init_db (db w)) in
  process_all_events env bhom_config {| db := t; token := token w |}.

(** [main] of the timer trigger: an exception of the pipeline is logged. *)
Definition timer_main (env : environment) (bhom_config : list (string * pyval))
    (w : world) : world :=
  snd (run_pipeline env bhom_config w).

(* ================================================================== *)
(** * Vocabulary of the statements *)

(** ** Source paths *)

(** A part of a source path is well formed when it has no bracket, or one
    bracket followed by a text that [int] reads. *)
Definition part_wf (part : string) : bool :=
  if py_in "[" part then
    match py_split "[" part with
    | [_; idx] => is_ok (py_int idx)
    | _ => false
    end
  else true.

Definition path_wf (key_path : string) : bool :=
  forallb part_wf (py_split "." (py_replace "]" "" key_path)).

(** The value found at a source path, [None] standing for not found. *)
Definition lookup_value (event_data : pyval) (key_path : string) : pyval :=
  match get_nested_value event_data key_path with
  | Ok v => v
  | Raise _ => PNone
  end.

(** The first value of a list that is not [None], the empty string when
    there is none. *)
Definition first_non_null (values : list pyval) : pyval :=
  match find (fun v => negb (is_none v)) values with
  | Some v => v
  | None => PStr ""
  end.

(** The text of a rule after its prefix, as the resolver cuts it. *)
Definition rule_argument (prefix rule : string) : string :=
  match py_split prefix rule with
  | _ :: arg :: _ => arg
  | _ => ""
  end.

(** The candidate paths of an [event_data:] rule, in order. *)
Definition candidate_paths (rule : string) : list string :=
  map py_strip (py_split "|" (rule_argument "event_data:" rule)).

(** The transform a [func:] rule names. *)
Definition transform_name (rule : string) : string :=
  py_strip (rule_argument "func:" rule).

(** Reading a target document along the keys of a dotted path. *)
Fixpoint lookup_keys (d : pyval) (keys : list string) : option pyval :=
  match keys with
  | [] => Some d
  | k :: rest =>
      match d with
      | PDict kvs =>
          match dict_get k kvs with
          | Some c => lookup_keys c rest
          | None => None
          end
      | _ => None
      end
  end.

Definition payload_get (payload : pyval) (dotted_key : string) : option pyval :=
  lookup_keys payload (py_split "." dotted_key).

(** ** The store *)

Definition with_status (st : event_status) (r : row) : row :=
  {| event_id := event_id r; event_json := event_json r; status := st |}.

(** A row after the statuses of a batch were written: it takes the status
    when its identifier is one of the batch's, and is untouched otherwise. *)
Definition mark (st : event_status) (event_ids : list (option string)) (r : row) : row :=
  if existsb (sql_eq (event_id r)) event_ids then with_status st r else r.

(** The rows stored under an identifier. *)
Definition records_of (id : string) (t : table) : list row :=
  filter (fun r => sql_eq (event_id r) (Some id)) t.

Definition ids_of (t : table) : list string :=
  flat_map (fun r => match event_id r with Some id => [id] | None => [] end) t.

(** The uniqueness constraint on [event_id]: no two rows share an
    identifier that is not null. *)
Definition unique_ids (t : table) : Prop := NoDup (ids_of t).

(** The [k]-th batch of a run over [events]. *)
Definition batch_at {A : Type} (events : list A) (batch_size k : nat) : list A :=
  slice events (k * batch_size) batch_size.

(** The start indices of [len] batches from batch [n] on. *)
Definition batch_starts (batch_size n len : nat) : list nat :=
  map (fun k => k * batch_size) (seq n len).

(** The identifiers of the selected events, the nulls left out. *)
Definition selected_ids (events : list (option string * pyval)) : list string :=
  flat_map (fun ev => match fst ev with Some id => [id] | None => [] end) events.

(** ** The services *)

(** The refresh call fails (no response, or an error status) or its answer
    holds no token. *)
Definition refresh_failed (response : http_outcome) : bool :=
  match response with
  | NoResponse => true
  | Response status_code body =>
      ((400 <=? status_code)%Z && (status_code <? 600)%Z)
      || match body with
         | NotJson => true
         | JsonBody (PDict kvs) =>
             match dict_get "json_web_token" kvs with
             | Some v => negb (truthy v)
             | None => true
             end
         | JsonBody _ => true
         end
  end.

(** A submission is rejected when the request brings no response, when the
    status is not 200, or when the answer with status 200 cannot be counted:
    its body is no JSON, or no object, or an object whose [resourceId] has
    no length. *)
Definition rejected (response : http_outcome) : bool :=
  match response with
  | NoResponse => true
  | Response status_code body =>
      negb (status_code =? 200)%Z
      || match body with
         | NotJson => true
         | JsonBody (PDict kvs) =>
             match dict_get "resourceId" kvs with
             | None | Some (PStr _) | Some (PList _) | Some (PDict _) => false
             | Some _ => true
             end
         | JsonBody _ => true
         end
  end.

(** An answer that accepts a batch of [size] documents: status 200 and an
    object whose [resourceId] lists [size] resources. *)
Definition accepted (response : http_outcome) (size : nat) : Prop :=
  exists kvs resources,
    response = Response 200%Z (JsonBody (PDict kvs))
    /\ dict_get "resourceId" kvs = Some (PList resources)
    /\ List.length resources = size.

(** ** Mappings *)

(** [p] is a beginning of [q] that is shorter than [q]. *)
Fixpoint proper_prefix (p q : list string) : bool :=
  match p, q with
  | [], _ :: _ => true
  | a :: p', b :: q' => String.eqb a b && proper_prefix p' q'
  | _, _ => false
  end.

(** A rule that takes its value from the event. *)
Definition takes_from_event (rule : pyval) : bool :=
  match rule with
  | PStr rule => negb (startswith "static:" rule) && startswith "event_data:" rule
  | _ => false
  end.

(** No rule writes below the target of an earlier [event_data:] rule: the
    keys of a target never continue the keys under which an earlier rule
    stored a value of the event.  [taken] lists the targets of the earlier
    [event_data:] rules.  Under this condition every dict the resolver
    writes into is one it created for the payload, and none is shared with
    the event. *)
Fixpoint keys_private_from (taken : list (list string)) (items : list (string * pyval))
  : bool :=
  match items with
  | [] => true
  | (bhom_field, rule) :: rest =>
      let keys := py_split "." bhom_field in
      forallb (fun earlier => negb (proper_prefix earlier keys)) taken
      && keys_private_from (if takes_from_event rule then keys :: taken else taken) rest
  end.

Definition keys_private (mapping_config : list (string * pyval)) : bool :=
  keys_private_from [] mapping_config.

(** A text whose capital stays below code point 256. *)
Definition upper_fits (v : pyval) : bool :=
  match v with
  | PStr s => negb (has_char (ascii_of_nat 181) s || has_char (ascii_of_nat 255) s)
  | _ => true
  end.


(** The outcomes of a walk along a source path that the handler of
    [get_nested_value] turns into a value. *)
Definition masked (r : result pyval) : bool :=
  match r with
  | Ok _ | Raise KeyError | Raise IndexError | Raise TypeError => true
  | Raise _ => false
  end.

(* ================================================================== *)
(** * Sample data *)

Definition event_e1 : pyval :=
  PDict [("eventId", PStr "e1"); ("state", PStr "open")].

Definition event_e2 : pyval :=
  PDict [("eventId", PStr "e2"); ("state", PStr "open"); ("host", PStr "web1")].

Definition host_mapping : list (string * pyval) :=
  [("host", PStr "func:uppercase_state")].

Definition pending (ev_id : string) (doc : pyval) (st : event_status) : row :=
  {| event_id := Some ev_id; event_json := doc; status := st |}.

(** A refresh service that issues the given token. *)
Definition token_response (tok : string) : http_outcome :=
  Response 200%Z (JsonBody (PDict [("json_web_token", PStr tok)])).

(** A downstream service that reports one resource per document sent. *)
Definition accepting_service : bhom_service :=
  fun _ _ payload =>
    Response 200%Z (JsonBody (PDict [("resourceId", PList (map (fun _ => PStr "r") payload))])).

(** 2025-01-01 12:00:00. *)
Definition noon : datetime :=
  ((days_from_civil 2025 1 1 * 86400 + 12 * 3600) * usec_per_second)%Z.

Definition minutes (n : Z) : Z := (n * 60 * usec_per_second)%Z.

Definition sample_env : environment :=
  {| instana_response := Response 200%Z (JsonBody (PList []));
     current_time := noon;
     refresh_response := token_response "tok1";
     write_time := noon;
     bhom_post := accepting_service |}.

Definition two_pending : world :=
  {| db := [pending "e2" event_e2 RECEIVED; pending "e1" event_e1 RECEIVED];
     token := NoFile |}.

(** A batch of three events, a table that holds them and a fourth, and an
    answer that reports two resources. *)
Definition batch_abc : list (option string * pyval) :=
  [(Some "a", event_e1); (Some "b", event_e1); (Some "c", event_e1)].

Definition table_abcd : table :=
  [pending "a" event_e1 RECEIVED; pending "b" event_e1 FAILED;
   pending "c" event_e1 RECEIVED; pending "d" event_e1 RECEIVED].

Definition two_created : http_body :=
  JsonBody (PDict [("resourceId", PList [PStr "r1"; PStr "r2"])]).

Definition three_created : http_body :=
  JsonBody (PDict [("resourceId", PList [PStr "r1"; PStr "r2"; PStr "r3"])]).

(** A downstream service that answers every request with a server error. *)
Definition failing_service : bhom_service :=
  fun _ _ _ => Response 500%Z NotJson.

Definition static_mapping : list (string * pyval) :=
  [("source", PStr "static:instana")].

(** An answer of the source with the open event [e1], a closed event and
    the open event [e1] once more. *)
Definition instana_e1_twice : http_outcome :=
  Response 200%Z
    (JsonBody (PList [event_e1;
                      PDict [("eventId", PStr "e9"); ("state", PStr "closed")];
                      event_e1])).

(** A store with a delivered event and a failed one. *)
Definition delivered_and_failed : world :=
  {| db := [pending "e1" event_e1 CREATED; pending "e2" event_e2 FAILED];
     token := NoFile |}.

(** The environment of [sample_env] with the refresh service down. *)
Definition refresh_down_env : environment :=
  {| instana_response := instana_response sample_env;
     current_time := noon;
     refresh_response := NoResponse;
     write_time := noon;
     bhom_post := accepting_service |}.

(** The scenario of the specification: one open event of severity 5. *)
Definition event_sev5 : pyval :=
  PDict [("eventId", PStr "e1"); ("state", PStr "open"); ("severity", PInt 5)].

Definition severity_mapping : list (string * pyval) :=
  [("severity", PStr "func:severity_level")].

Definition scenario_env : environment :=
  {| instana_response := Response 200%Z (JsonBody (PList [event_sev5]));
     current_time := noon;
     refresh_response := token_response "tok1";
     write_time := noon;
     bhom_post := fun _ _ _ =>
                    Response 200%Z (JsonBody (PDict [("resourceId", PList [PStr "r1"])])) |}.

(** An open event whose [tags] is a list. *)
Definition event_tagged : pyval :=
  PDict [("eventId", PStr "e4"); ("state", PStr "open"); ("tags", PList [])].

(** An open event that carries no [eventId]. *)
Definition event_anonymous : pyval := PDict [("state", PStr "open")].

(** An environment whose source answers with the anonymous event and the
    events [e1] and [e2], and whose downstream service gives the same answer
    to every request. *)
Definition answering_env (answer : http_outcome) : environment :=
  {| instana_response := Response 200%Z (JsonBody (PList [event_anonymous; event_e1; event_e2]));
     current_time := noon;
     refresh_response := token_response "tok1";
     write_time := noon;
     bhom_post := fun _ _ _ => answer |}.


(** An environment whose downstream service answers the first request of a
    run with a server error and accepts the later ones. *)
Definition flaky_env : environment :=
  {| instana_response := Response 200%Z (JsonBody (PList []));
     current_time := noon;
     refresh_response := token_response "tok1";
     write_time := noon;
     bhom_post := fun n authorization payload =>
                    if n =? 0 then Response 500%Z NotJson
                    else accepting_service n authorization payload |}.

Definition events_ab : list (option string * pyval) :=
  [(Some "a", event_e1); (Some "b", event_e1)].

(* ================================================================== *)
(** * Further vocabulary *)

Definition is_str (v : pyval) : bool :=
  match v with
  | PStr _ => true
  | _ => false
  end.

Definition is_dict (v : pyval) : bool :=
  match v with
  | PDict _ => true
  | _ => false
  end.

(** The file [_create_new_refresh_token] writes for a token at a time. *)
Definition written_file (tok : pyval) (t : datetime) : token_file :=
  JsonFile (PDict [("time", PStr (strftime t)); ("refresh_token", tok)]).

(** A decoded token file whose time cannot be read at all: the document is
    not an object, or its [time] is not a string. *)
Definition unreadable_stamp (data : pyval) : bool :=
  match data with
  | PDict kvs =>
      match dict_get "time" kvs with
      | Some (PStr _) | None => false
      | Some _ => true
      end
  | _ => true
  end.

(** A row after a synchronisation, against the row before: the same row, or
    the row with its status rewritten to CREATED or to FAILED. *)
Definition rewritten (r r' : row) : Prop :=
  r' = r \/ r' = with_status CREATED r \/ r' = with_status FAILED r.

(** An event of an answer that has no [state] to read. *)
Definition stateless_answer : http_outcome :=
  Response 200%Z
    (JsonBody (PList [event_e1; PDict [("eventId", PStr "e7")]; event_e2])).

(* ================================================================== *)
(** * Checks on small inputs *)

Example split_dots : py_split "." "a.b[0].c" = ["a"; "b[0]"; "c"].
Proof. reflexivity. Qed.

Example split_prefix : py_split "event_data:" "event_data:a.b|c.d" = [""; "a.b|c.d"].
Proof. reflexivity. Qed.

Example int_forms :
  py_int " 12 " = Ok 12%Z /\ py_int "-1" = Ok (-1)%Z /\ py_int "1_0" = Ok 10%Z
  /\ py_int "x" = Raise ValueError /\ py_int "" = Raise ValueError
  /\ py_int "1__0" = Raise ValueError.
Proof. repeat split; reflexivity. Qed.

Example candidate_paths_example :
  candidate_paths "event_data:a.b| c.d[0] " = ["a.b"; "c.d[0]"].
Proof. reflexivity. Qed.

(* ================================================================== *)
(** * Splitting and rule prefixes *)

Lemma split_go_nonempty : forall sep s skip cur, split_go sep skip cur s <> [].
Proof.
  induction s as [|c s IH]; intros skip cur.
  - discriminate.
  - cbn [split_go]. destruct skip as [|k]; [|apply IH].
    destruct (String.prefix sep (String c s)); [discriminate | apply IH].
Qed.

Lemma py_split_nonempty : forall sep s, py_split sep s <> [].
Proof. intros; apply split_go_nonempty. Qed.

(** A text that starts with the separator splits into an empty first piece
    and at least one more. *)
Lemma split_prefixed : forall sep s,
  sep <> "" -> startswith sep s = true ->
  exists arg rest, py_split sep s = "" :: arg :: rest.
Proof.
  intros sep s Hsep H. unfold py_split, startswith in *.
  destruct s as [|c s].
  - destruct sep; [congruence | discriminate].
  - cbn [split_go]. rewrite H.
    destruct (split_go sep (String.length sep - 1) "" s) as [|arg rest] eqn:E.
    + exfalso. exact (split_go_nonempty _ _ _ _ E).
    + exists arg, rest. reflexivity.
Qed.

Lemma second_rule_argument : forall sep rule,
  sep <> "" -> startswith sep rule = true ->
  second (py_split sep rule) = Ok (rule_argument sep rule).
Proof.
  intros sep rule Hsep H.
  destruct (split_prefixed sep rule Hsep H) as (arg & rest & E).
  unfold rule_argument, second. rewrite E. reflexivity.
Qed.

(** Two prefixes that differ in their first character exclude each other. *)
Lemma prefix_head_clash : forall a b p q s,
  a <> b -> String.prefix (String a p) s = true -> String.prefix (String b q) s = false.
Proof.
  intros a b p q [|c r] Hab H; [discriminate|].
  cbn [String.prefix] in *.
  destruct (ascii_dec a c) as [Ea|]; [subst c | discriminate].
  destruct (ascii_dec b a); [congruence | reflexivity].
Qed.

Lemma event_data_not_static : forall rule,
  startswith "event_data:" rule = true -> startswith "static:" rule = false.
Proof.
  intros rule H. unfold startswith in *.
  eapply prefix_head_clash; [|exact H]. discriminate.
Qed.

Lemma func_not_static : forall rule,
  startswith "func:" rule = true -> startswith "static:" rule = false.
Proof.
  intros rule H. unfold startswith in *.
  eapply prefix_head_clash; [|exact H]. discriminate.
Qed.

Lemma func_not_event_data : forall rule,
  startswith "func:" rule = true -> startswith "event_data:" rule = false.
Proof.
  intros rule H. unfold startswith in *.
  eapply prefix_head_clash; [|exact H]. discriminate.
Qed.

(* ================================================================== *)
(** * The soft lookup *)

Lemma getitem_str_raises : forall val key e,
  getitem_str val key = Raise e -> e = KeyError \/ e = TypeError.
Proof.
  intros val key e H. destruct val; cbn in H; try (inversion H; auto; fail).
  destruct (dict_get key kvs); inversion H; auto.
Qed.

Lemma getitem_int_raises : forall val i e,
  getitem_int val i = Raise e -> e = KeyError \/ e = IndexError \/ e = TypeError.
Proof.
  intros val i e H. destruct val; cbn in H; try (inversion H; auto; fail).
  - destruct (seq_index (String.length s) i) as [k|]; [|inversion H; auto].
    destruct (String.get k s); inversion H; auto.
  - destruct (seq_index (List.length xs) i) as [k|]; [|inversion H; auto].
    destruct (nth_error xs k); inversion H; auto.
Qed.

(** A walk along well formed parts ends in a value or in one of the three
    exceptions the handler catches. *)
Lemma walk_parts_masked : forall parts val,
  forallb part_wf parts = true -> masked (walk_parts val parts) = true.
Proof.
  induction parts as [|part rest IH]; intros val H.
  - reflexivity.
  - cbn [forallb] in H. apply andb_true_iff in H as [Hp Hr].
    cbn [walk_parts]. unfold part_wf in Hp.
    destruct (py_in "[" part).
    + destruct (py_split "[" part) as [|key [|idx [|x xs]]]; try discriminate.
      destruct (getitem_str val key) as [inner|e] eqn:E1; cbn [bind].
      * destruct (py_int idx) as [i|e]; [|discriminate]. cbn [bind].
        destruct (getitem_int inner i) as [item|e] eqn:E2; cbn [bind].
        -- apply IH, Hr.
        -- destruct (getitem_int_raises _ _ _ E2) as [->|[->| ->]]; reflexivity.
      * destruct (getitem_str_raises _ _ _ E1) as [->| ->]; reflexivity.
    + destruct (getitem_str val part) as [item|e] eqn:E1; cbn [bind].
      * apply IH, Hr.
      * destruct (getitem_str_raises _ _ _ E1) as [->| ->]; reflexivity.
Qed.

(** On a well formed path [get_nested_value] returns: the value found, or
    [None]. *)
Lemma get_nested_value_total : forall data key_path,
  path_wf key_path = true ->
  get_nested_value data key_path = Ok (lookup_value data key_path).
Proof.
  intros data key_path H. unfold lookup_value, get_nested_value.
  pose proof (walk_parts_masked _ data H) as M. unfold path_wf in H.
  destruct (walk_parts data (py_split "." (py_replace "]" "" key_path))) as [v|[]];
    cbn in M |- *; try discriminate; reflexivity.
Qed.

(** The generator of the fallback chain computes the first value that is not
    [None]. *)
Lemma first_present_spec : forall event_data keys,
  forallb path_wf (map py_strip keys) = true ->
  first_present event_data keys
  = Ok (first_non_null (map (lookup_value event_data) (map py_strip keys))).
Proof.
  intros event_data keys. induction keys as [|key rest IH]; intros H.
  - reflexivity.
  - cbn [map forallb] in H. apply andb_true_iff in H as [Hk Hr].
    cbn [first_present map]. rewrite (get_nested_value_total _ _ Hk). cbn [bind].
    unfold first_non_null. cbn [find].
    destruct (is_none (lookup_value event_data (py_strip key))) eqn:E; cbn [negb].
    + rewrite (IH Hr). reflexivity.
    + reflexivity.
Qed.

Lemma first_non_null_miss : forall values,
  Forall (fun v => v = PNone) values -> first_non_null values = PStr "".
Proof.
  intros values H. unfold first_non_null.
  induction H as [|v vs Hv _ IH]; [reflexivity|]. subst v. cbn. exact IH.
Qed.

Lemma first_non_null_hit : forall before v after,
  Forall (fun x => x = PNone) before -> v <> PNone ->
  first_non_null (before ++ v :: after)%list = v.
Proof.
  intros before v after H Hv. unfold first_non_null.
  induction H as [|x xs Hx _ IH]; cbn.
  - destruct v; try reflexivity. congruence.
  - subst x. cbn. exact IH.
Qed.

(* ================================================================== *)
(** * Writing into the payload *)

Lemma dict_get_set_same : forall k v kvs, dict_get k (dict_set k v kvs) = Some v.
Proof.
  intros k v kvs. induction kvs as [|[k' v'] kvs IH]; cbn.
  - rewrite String.eqb_refl. reflexivity.
  - destruct (String.eqb k k') eqn:E; cbn.
    + rewrite String.eqb_refl. reflexivity.
    + rewrite E. exact IH.
Qed.

Lemma insert_keys_step : forall kvs k k2 rest v,
  insert_keys (PDict kvs) (k :: k2 :: rest) v
  = (child' <- insert_keys
                 (match dict_get k kvs with Some c => c | None => PDict [] end)
                 (k2 :: rest) v ;;
     Ok (PDict (dict_set k child' kvs))).
Proof. reflexivity. Qed.

(** What was written at a dotted key is read back from it. *)
Lemma insert_keys_lookup : forall keys d v d',
  insert_keys d keys v = Ok d' -> lookup_keys d' keys = Some v.
Proof.
  induction keys as [|k rest IH]; intros d v d' H.
  - discriminate.
  - destruct rest as [|k2 rest].
    + cbn in H. destruct d; try discriminate. inversion H; subst.
      cbn. rewrite dict_get_set_same. reflexivity.
    + destruct d; try discriminate. rewrite insert_keys_step in H.
      destruct (insert_keys
                  match dict_get k kvs with Some c => c | None => PDict [] end
                  (k2 :: rest) v) as [child'|e] eqn:E; cbn [bind] in H; [|discriminate].
      inversion H; subst.
      cbn [lookup_keys]. rewrite dict_get_set_same. exact (IH _ _ _ E).
Qed.

(** Writing into an empty payload never fails. *)
Lemma insert_keys_fresh : forall keys v,
  keys <> [] -> exists d', insert_keys (PDict []) keys v = Ok d'.
Proof.
  induction keys as [|k rest IH]; intros v H; [congruence|].
  destruct rest as [|k2 rest].
  - eexists. reflexivity.
  - destruct (IH v ltac:(discriminate)) as [child' E].
    exists (PDict (dict_set k child' [])).
    rewrite insert_keys_step. cbn [dict_get]. rewrite E. reflexivity.
Qed.

Lemma insert_nested_key_get : forall payload dotted_key value payload',
  insert_nested_key payload dotted_key value = Ok payload' ->
  payload_get payload' dotted_key = Some value.
Proof. intros ? ? ? ?; apply insert_keys_lookup. Qed.

(** A mapping of one entry resolves whenever the rule has a value, and the
    value sits under the target key. *)
Lemma resolve_single : forall event_data bhom_field rule value,
  rule_value event_data bhom_field rule = Ok value ->
  exists payload,
    resolve_bhom_mapping event_data [(bhom_field, rule)] = Ok [payload]
    /\ payload_get payload bhom_field = Some value.
Proof.
  intros event_data bhom_field rule value H.
  destruct (insert_keys_fresh (py_split "." bhom_field) value (py_split_nonempty _ _))
    as [payload E].
  exists payload. split.
  - unfold resolve_bhom_mapping. cbn [resolve_items]. rewrite H. cbn [bind].
    unfold insert_nested_key. rewrite E. reflexivity.
  - exact (insert_keys_lookup _ _ _ _ E).
Qed.

(** The resolver answers with a list of one document. *)
Lemma resolve_bhom_mapping_single : forall event_data mapping_config docs,
  resolve_bhom_mapping event_data mapping_config = Ok docs -> exists payload, docs = [payload].
Proof.
  intros event_data mapping_config docs H. unfold resolve_bhom_mapping in H.
  destruct (resolve_items event_data (PDict []) mapping_config); [|discriminate].
  inversion H. eauto.
Qed.

(* ================================================================== *)
(** * Paths without brackets *)

Lemma has_char_app : forall c a b,
  has_char c (a ++ b) = has_char c a || has_char c b.
Proof.
  intros c a b. induction a as [|x a IH]; [reflexivity|].
  cbn. rewrite IH. apply orb_assoc.
Qed.

Lemma py_in_char : forall c s, py_in (String c "") s = has_char c s.
Proof.
  intros c s. induction s as [|a s IH]; [reflexivity|].
  cbn [py_in has_char String.prefix].
  destruct (ascii_dec c a) as [->|N].
  - rewrite Ascii.eqb_refl. destruct s; reflexivity.
  - apply Ascii.eqb_neq in N. rewrite N. exact IH.
Qed.

(** The characters of the pieces of a split are characters of the text. *)
Lemma split_go_chars : forall sep c s skip cur piece,
  In piece (split_go sep skip cur s) -> has_char c piece = true ->
  has_char c cur = true \/ has_char c s = true.
Proof.
  intros sep c. induction s as [|a s IH]; intros skip cur piece Hin Hc.
  - destruct Hin as [<-|[]]. left. exact Hc.
  - cbn [split_go] in Hin. cbn [has_char]. destruct skip as [|k].
    + destruct (String.prefix sep (String a s)).
      * destruct Hin as [<-|Hin]; [left; exact Hc|].
        destruct (IH _ _ _ Hin Hc) as [H|H]; [discriminate|].
        right. rewrite H. apply orb_true_r.
      * destruct (IH _ _ _ Hin Hc) as [H|H].
        -- rewrite has_char_app in H. cbn in H. rewrite orb_false_r in H.
           apply orb_true_iff in H as [H|H]; [left; exact H|].
           right. rewrite H. reflexivity.
        -- right. rewrite H. apply orb_true_r.
    + destruct (IH _ _ _ Hin Hc) as [H|H]; [left; exact H|].
      right. rewrite H. apply orb_true_r.
Qed.

Lemma concat_chars : forall c sep parts,
  has_char c (String.concat sep parts) = true ->
  has_char c sep = true \/ exists p, In p parts /\ has_char c p = true.
Proof.
  intros c sep parts. induction parts as [|p parts IH]; intros H; [discriminate|].
  destruct parts as [|q parts].
  - right. exists p. split; [left; reflexivity | exact H].
  - change (String.concat sep (p :: q :: parts))
      with (p ++ sep ++ String.concat sep (q :: parts))%string in H.
    rewrite !has_char_app in H. apply orb_true_iff in H as [H|H].
    + right. exists p. split; [left; reflexivity | exact H].
    + apply orb_true_iff in H as [H|H]; [left; exact H|].
      destruct (IH H) as [S|(x & Hx & Hc)]; [left; exact S|].
      right. exists x. split; [right; exact Hx | exact Hc].
Qed.

(** A path that has no opening bracket is well formed. *)
Lemma bracket_free_path_wf : forall key_path,
  has_char "[" key_path = false -> path_wf key_path = true.
Proof.
  intros key_path H. unfold path_wf. apply forallb_forall. intros part Hin.
  unfold part_wf. rewrite py_in_char.
  destruct (has_char "[" part) eqn:E; [|reflexivity]. exfalso.
  destruct (split_go_chars _ "["%char _ _ _ _ Hin E) as [F|F]; [discriminate|].
  unfold py_replace, py_join in F.
  destruct (concat_chars _ _ _ F) as [G|(p & Hp & G)]; [discriminate|].
  destruct (split_go_chars _ "["%char _ _ _ _ Hp G) as [K|K]; [discriminate|].
  congruence.
Qed.

(** The source path of a target field that has no opening bracket is well
    formed, whether the field is in the reverse map or not. *)
Lemma bracket_free_field_wf : forall bhom_field,
  has_char "[" bhom_field = false ->
  path_wf (bhom_mapping_reverse_lookup bhom_field) = true.
Proof.
  intros bhom_field H. unfold bhom_mapping_reverse_lookup, reverse_map. cbn [assoc_get].
  repeat match goal with
         | |- context [String.eqb bhom_field ?k] => destruct (String.eqb bhom_field k)
         end; try reflexivity.
  apply bracket_free_path_wf, H.
Qed.

(* ================================================================== *)
(** * The resolver: fallback chains, unknown transforms, exceptions *)

(** C6.  For an [event_data:] rule whose candidate paths are well formed
    source paths, the value of the rule is the first looked-up value, from
    left to right, that is present and not null, and the empty string when
    no candidate has one; once written, the value is read back under the
    target key, and a mapping made of the rule alone resolves to a document
    that holds the target key with that value. *)
Theorem C6_fallback_chain (event_data : pyval) (bhom_field rule : string) :
  startswith "event_data:" rule = true ->
  forallb path_wf (candidate_paths rule) = true ->
  let value := first_non_null (map (lookup_value event_data) (candidate_paths rule)) in
  rule_value event_data bhom_field (PStr rule) = Ok value
  /\ (forall payload payload',
         insert_nested_key payload bhom_field value = Ok payload' ->
         payload_get payload' bhom_field = Some value)
  /\ (exists payload,
         resolve_bhom_mapping event_data [(bhom_field, PStr rule)] = Ok [payload]
         /\ payload_get payload bhom_field = Some value).
Proof.
  intros Hrule Hwf value.
  assert (Hv : rule_value event_data bhom_field (PStr rule) = Ok value).
  { unfold rule_value. rewrite (event_data_not_static _ Hrule), Hrule.
    rewrite (second_rule_argument "event_data:" rule ltac:(discriminate) Hrule).
    cbn [bind]. apply first_present_spec. exact Hwf. }
  split; [exact Hv|]. split.
  - intros payload payload'. apply insert_nested_key_get.
  - apply resolve_single. exact Hv.
Qed.

(** The fallback chain [a.b|c.d] on an event that has only [c.d]. *)
Lemma C6_fallback_chain_witness :
  let event_data := PDict [("c", PDict [("d", PStr "x")])] in
  let value := PStr "x" in
  rule_value event_data "summary" (PStr "event_data:a.b|c.d") = Ok value
  /\ (forall payload payload',
         insert_nested_key payload "summary" value = Ok payload' ->
         payload_get payload' "summary" = Some value)
  /\ (exists payload,
         resolve_bhom_mapping event_data [("summary", PStr "event_data:a.b|c.d")] = Ok [payload]
         /\ payload_get payload "summary" = Some value).
Proof.
  exact (C6_fallback_chain (PDict [("c", PDict [("d", PStr "x")])]) "summary"
           "event_data:a.b|c.d" eq_refl eq_refl).
Defined.

Example fallback_both_absent :
  resolve_bhom_mapping (PDict [("state", PStr "open")]) [("summary", PStr "event_data:a.b|c.d")]
  = Ok [PDict [("summary", PStr "")]].
Proof. reflexivity. Qed.

Example fallback_null_then_value :
  resolve_bhom_mapping (PDict [("a", PDict [("b", PNone)]); ("c", PDict [("d", PStr "x")])])
                       [("out.text", PStr "event_data:a.b|c.d")]
  = Ok [PDict [("out", PDict [("text", PStr "x")])]].
Proof. reflexivity. Qed.

(** X23.  For a [func:] rule that names a transform absent from the
    registry, on a target field whose source path is well formed, the value
    of the rule is the empty string whatever the event is, no exception is
    raised, and a mapping made of the rule alone resolves to a document that
    holds the empty string under the target key. *)
Theorem unknown_transform_yields_empty (event_data : pyval) (bhom_field rule : string) :
  startswith "func:" rule = true ->
  registry_get (transform_name rule) CUSTOM_FUNCTIONS = None ->
  path_wf (bhom_mapping_reverse_lookup bhom_field) = true ->
  rule_value event_data bhom_field (PStr rule) = Ok (PStr "")
  /\ (exists payload,
         resolve_bhom_mapping event_data [(bhom_field, PStr rule)] = Ok [payload]
         /\ payload_get payload bhom_field = Some (PStr "")).
Proof.
  intros Hrule Hname Hwf.
  assert (Hv : rule_value event_data bhom_field (PStr rule) = Ok (PStr "")).
  { unfold rule_value.
    rewrite (func_not_static _ Hrule), (func_not_event_data _ Hrule), Hrule.
    rewrite (second_rule_argument "func:" rule ltac:(discriminate) Hrule).
    cbn [bind]. rewrite (get_nested_value_total _ _ Hwf). cbn [bind].
    unfold transform_name in Hname. rewrite Hname. reflexivity. }
  split; [exact Hv|]. apply resolve_single. exact Hv.
Qed.

(** The rule [func:doesnotexist] on the severity field. *)
Lemma unknown_transform_yields_empty_witness :
  rule_value event_e1 "severity" (PStr "func:doesnotexist") = Ok (PStr "")
  /\ (exists payload,
         resolve_bhom_mapping event_e1 [("severity", PStr "func:doesnotexist")] = Ok [payload]
         /\ payload_get payload "severity" = Some (PStr "")).
Proof.
  exact (unknown_transform_yields_empty event_e1 "severity" "func:doesnotexist"
           eq_refl eq_refl eq_refl).
Defined.

(** C8.  A [func:] rule that names a transform absent from the registry
    raises on some events: the source field is looked up before the
    registry is read, and for the target field [tags[x]] the lookup
    converts the index [x] with [int], whose [ValueError] the handler of
    [get_nested_value] does not catch.  On an event whose [tags] is a list
    the rule raises and so does the resolver; on an event without [tags] the
    same rule gives the empty string.  In a run the exception leaves
    [process_all_events] and the event, with the other events of its batch,
    keeps its status. *)
Theorem C8_unknown_transform_raises :
  startswith "func:" "func:doesnotexist" = true
  /\ registry_get (transform_name "func:doesnotexist") CUSTOM_FUNCTIONS = None
  /\ rule_value event_tagged "tags[x]" (PStr "func:doesnotexist") = Raise ValueError
  /\ resolve_bhom_mapping event_tagged [("tags[x]", PStr "func:doesnotexist")]
     = Raise ValueError
  /\ rule_value event_e1 "tags[x]" (PStr "func:doesnotexist") = Ok (PStr "")
  /\ process_all_events sample_env [("tags[x]", PStr "func:doesnotexist")]
       {| db := [pending "e1" event_e1 RECEIVED; pending "e4" event_tagged RECEIVED];
          token := NoFile |}
     = (Raise ValueError,
        {| db := [pending "e1" event_e1 RECEIVED; pending "e4" event_tagged RECEIVED];
           token := written_file (PStr "tok1") noon |}).
Proof. repeat split; reflexivity. Qed.

(** C1.  The resolver raises on an event that lacks the field a
    [func:uppercase_state] rule reads: [None] has no [upper].  The exception
    leaves [process_events_in_batches], whose call of the resolver stands
    before the [try] block: the run ends with the exception, and the other
    event of the batch, which resolves, is neither submitted nor given a new
    status. *)
Theorem C1_resolver_raises :
  resolve_bhom_mapping event_e1 host_mapping = Raise AttributeError
  /\ resolve_bhom_mapping event_e2 host_mapping = Ok [PDict [("host", PStr "WEB1")]]
  /\ fst (process_all_events sample_env host_mapping two_pending) = Raise AttributeError
  /\ db (snd (process_all_events sample_env host_mapping two_pending)) = db two_pending.
Proof. repeat split; vm_compute; reflexivity. Qed.

(** Two more ways out of the resolver: an index that is not a number, and a
    target path that runs through a text written by an earlier rule. *)
Example resolver_raises_on_index :
  resolve_bhom_mapping (PDict [("items", PList [PInt 1])]) [("first", PStr "event_data:items[x]")]
  = Raise ValueError.
Proof. reflexivity. Qed.

Example resolver_raises_on_clash :
  resolve_bhom_mapping event_e1 [("a", PStr "static:1"); ("a.b", PStr "static:2")]
  = Raise TypeError.
Proof. reflexivity. Qed.

(* ================================================================== *)
(** * The credential guard *)

Lemma token_file_time : forall stamp tok default,
  py_get (PDict [("time", stamp); ("refresh_token", tok)]) "time" default = Ok stamp.
Proof. reflexivity. Qed.

Lemma token_file_no_jwt : forall stamp tok,
  getitem_str (PDict [("time", stamp); ("refresh_token", tok)]) "json_web_token"
  = Raise KeyError.
Proof. reflexivity. Qed.

(** Whatever the age of a file written by [_create_new_refresh_token], the
    guard asks the refresh service again. *)
Lemma written_file_never_read : forall tok t0 now response t2,
  let file := JsonFile (PDict [("time", PStr (strftime t0)); ("refresh_token", tok)]) in
  get_valid_refresh_token file now response t2
  = let '(r, file') := _create_new_refresh_token response t2 file in (r, file', 1).
Proof.
  intros tok t0 now response t2 file. unfold file, get_valid_refresh_token, read_stored_token.
  rewrite token_file_time. cbn [bind].
  destruct (strptime (strftime t0)) as [last_time|]; [|reflexivity].
  destruct (600 * usec_per_second <? now - last_time)%Z; [reflexivity|].
  rewrite token_file_no_jwt. reflexivity.
Qed.

(** What [_create_new_refresh_token] writes when a token is issued. *)
Lemma create_token_writes : forall response now file tok,
  request_new_token response = Ok tok ->
  _create_new_refresh_token response now file
  = (Ok tok, JsonFile (PDict [("time", PStr (strftime now)); ("refresh_token", tok)])).
Proof.
  intros response now file tok H. unfold _create_new_refresh_token. rewrite H. reflexivity.
Qed.

(** After a successful refresh, the next call of the guard refreshes again. *)
Lemma refreshed_then_refreshed_again : forall response0 t0 file0 tok now response t2,
  request_new_token response0 = Ok tok ->
  let file := snd (_create_new_refresh_token response0 t0 file0) in
  snd (get_valid_refresh_token file now response t2) = 1.
Proof.
  intros response0 t0 file0 tok now response t2 H file. unfold file.
  rewrite (create_token_writes _ _ _ _ H). cbn [snd].
  rewrite written_file_never_read.
  destruct (_create_new_refresh_token response t2 _). reflexivity.
Qed.

(** C2.  A token written by [_create_new_refresh_token] is stored under the
    key [refresh_token], and [get_valid_refresh_token] reads the key
    [json_web_token]: at any age the stored token is not found and the
    refresh service is called.  Nine minutes after the token [tok1] was
    written the guard calls the service, returns the new token [tok2] and
    writes a new time; were the service down, it would raise. *)
Theorem C2_written_token_not_reused :
  (forall tok t0 now response t2,
      let file := JsonFile (PDict [("time", PStr (strftime t0)); ("refresh_token", tok)]) in
      get_valid_refresh_token file now response t2
      = let '(r, file') := _create_new_refresh_token response t2 file in (r, file', 1))
  /\ (let file1 := snd (_create_new_refresh_token (token_response "tok1") noon NoFile) in
      file1 = JsonFile (PDict [("time", PStr "2025-01-01 12:00:00");
                               ("refresh_token", PStr "tok1")])
      /\ get_valid_refresh_token file1 (noon + minutes 9)%Z
                                 (token_response "tok2") (noon + minutes 9)%Z
         = (Ok (PStr "tok2"),
            JsonFile (PDict [("time", PStr "2025-01-01 12:09:00");
                             ("refresh_token", PStr "tok2")]),
            1)
      /\ get_valid_refresh_token file1 (noon + minutes 9)%Z NoResponse (noon + minutes 9)%Z
         = (Raise RuntimeError, file1, 1)).
Proof.
  split; [exact written_file_never_read|].
  repeat split; vm_compute; reflexivity.
Qed.

(** The reading side alone does what the freshness rule asks, on a file that
    holds the key it reads: reuse at nine minutes, refresh at eleven. *)
Example jwt_file_reused_at_nine_minutes :
  let file := JsonFile (PDict [("time", PStr "2025-01-01 12:00:00");
                               ("json_web_token", PStr "tok1")]) in
  get_valid_refresh_token file (noon + minutes 9)%Z (token_response "tok2") (noon + minutes 9)%Z
  = (Ok (PStr "tok1"), file, 0)
  /\ get_valid_refresh_token file (noon + minutes 11)%Z (token_response "tok2")
                             (noon + minutes 11)%Z
     = (Ok (PStr "tok2"),
        JsonFile (PDict [("time", PStr "2025-01-01 12:11:00"); ("refresh_token", PStr "tok2")]),
        1).
Proof. split; vm_compute; reflexivity. Qed.

(** A refresh call that fails or brings no token makes the request raise. *)
Lemma request_new_token_failed : forall response,
  refresh_failed response = true -> exists e, request_new_token response = Raise e.
Proof.
  intros [|status_code body] H; cbn in H |- *; [eauto|].
  unfold raise_for_status.
  destruct ((400 <=? status_code)%Z && (status_code <? 600)%Z); cbn in H |- *; [eauto|].
  destruct body as [v|]; cbn; [|eauto].
  destruct v; cbn; eauto.
  destruct (dict_get "json_web_token" kvs) as [v|]; cbn; [|eauto].
  rewrite H. cbn. eauto.
Qed.

(** Otherwise the request returns the token of the answer. *)
Lemma request_new_token_issued : forall response,
  refresh_failed response = false -> exists tok, request_new_token response = Ok tok.
Proof.
  intros [|status_code body] H; cbn in H |- *; [discriminate|].
  unfold raise_for_status.
  destruct ((400 <=? status_code)%Z && (status_code <? 600)%Z); cbn in H |- *; [discriminate|].
  destruct body as [v|]; [|discriminate].
  destruct v; try discriminate. cbn.
  destruct (dict_get "json_web_token" kvs) as [v|]; [|discriminate]. cbn.
  apply negb_false_iff in H. rewrite H. cbn. eauto.
Qed.

Lemma create_token_failed : forall response now file,
  refresh_failed response = true ->
  _create_new_refresh_token response now file = (Raise RuntimeError, file).
Proof.
  intros response now file H. unfold _create_new_refresh_token.
  destruct (request_new_token_failed _ H) as [e ->]. reflexivity.
Qed.

(** With a failing refresh service the guard either returns the stored token
    without a call, or raises [RuntimeError]; the file is left as it was. *)
Lemma guard_with_failed_refresh : forall file now response wt,
  refresh_failed response = true ->
  exists r calls,
    get_valid_refresh_token file now response wt = (r, file, calls)
    /\ (calls = 1 -> r = Raise RuntimeError)
    /\ (forall e, r = Raise e -> e = RuntimeError).
Proof.
  intros file now response wt H. unfold get_valid_refresh_token.
  rewrite (create_token_failed _ wt file H).
  assert (C : exists r calls,
             (Raise RuntimeError : result pyval, file, 1) = (r, file, calls)
             /\ (calls = 1 -> r = Raise RuntimeError)
             /\ (forall e, r = Raise e -> e = RuntimeError)).
  { exists (Raise RuntimeError), 1. repeat split; auto. intros e E; inversion E; auto. }
  destruct file as [| | |data]; try exact C.
  destruct (read_stored_token data now) as [[token|]|e]; try exact C.
  - exists (Ok token), 0. repeat split; [discriminate | discriminate].
  - assert (D : exists r calls,
               (Raise RuntimeError : result pyval, JsonFile data, 0)
               = (r, JsonFile data, calls)
               /\ (calls = 1 -> r = Raise RuntimeError)
               /\ (forall e, r = Raise e -> e = RuntimeError)).
    { exists (Raise RuntimeError), 0. repeat split; auto. intros e' E; inversion E; auto. }
    destruct e; first [exact C | exact D].
Qed.

(* ================================================================== *)
(** * Status updates of a batch *)

Lemma with_status_twice : forall st r, with_status st (with_status st r) = with_status st r.
Proof. reflexivity. Qed.

Lemma mark_event_id : forall st ids r, event_id (mark st ids r) = event_id r.
Proof. intros st ids r. unfold mark. destruct (existsb _ ids); reflexivity. Qed.


(** [executemany] over the identifiers of a batch marks each row once. *)
Lemma fold_update_mark : forall st ids t,
  fold_left (update_status st) ids t = map (mark st ids) t.
Proof.
  intros st ids. induction ids as [|a ids IH]; intros t.
  - cbn. rewrite <- (map_id t) at 1. apply map_ext. reflexivity.
  - cbn [fold_left]. rewrite IH. unfold update_status. rewrite map_map.
    apply map_ext. intros r. unfold mark. cbn [existsb].
    destruct (sql_eq (event_id r) a); cbn [orb].
    + change (event_id _) with (event_id r).
      destruct (existsb (sql_eq (event_id r)) ids); reflexivity.
    + reflexivity.
Qed.

Lemma sql_eq_some : forall x id, sql_eq x (Some id) = true <-> x = Some id.
Proof.
  intros [y|] id; cbn; [|split; discriminate].
  rewrite String.eqb_eq. split; congruence.
Qed.

Lemma in_batch_ids : forall x ids,
  existsb (sql_eq x) ids = true <-> exists id, x = Some id /\ In (Some id) ids.
Proof.
  intros x ids. rewrite existsb_exists. split.
  - intros (y & Hy & E). destruct x as [a|], y as [b|]; try discriminate.
    cbn in E. apply String.eqb_eq in E. subst b. eauto.
  - intros (id & -> & Hin). exists (Some id). split; [exact Hin|].
    cbn. apply String.eqb_refl.
Qed.

(** After the update every row of the batch has the status written. *)
Lemma marked_status : forall st ids t r id,
  In r (map (mark st ids) t) -> event_id r = Some id -> In (Some id) ids -> status r = st.
Proof.
  intros st ids t r id Hin Hid Hids. apply in_map_iff in Hin as (r0 & <- & _).
  rewrite mark_event_id in Hid. unfold mark.
  destruct (existsb (sql_eq (event_id r0)) ids) eqn:E; [reflexivity|].
  assert (existsb (sql_eq (event_id r0)) ids = true) by (apply in_batch_ids; eauto).
  congruence.
Qed.

(** A row outside the batch is left as it was. *)
Lemma unmarked_row : forall st ids r,
  (forall id, event_id r = Some id -> ~ In (Some id) ids) -> mark st ids r = r.
Proof.
  intros st ids r H. unfold mark.
  destruct (existsb (sql_eq (event_id r)) ids) eqn:E; [|reflexivity].
  apply in_batch_ids in E as (id & Hid & Hin). destruct (H id Hid Hin).
Qed.

Lemma submit_batch_spec : forall response batch conn,
  submit_batch response batch conn
  = let t' := map (mark match batch_verdict response (List.length batch) with
                        | Ok st => st
                        | Raise _ => FAILED
                        end (map fst batch)) (working conn) in
    {| committed := t'; working := t' |}.
Proof.
  intros response batch conn. unfold submit_batch, commit, executemany_update.
  cbn [working committed]. rewrite fold_update_mark. reflexivity.
Qed.

Lemma rejected_verdict : forall response n,
  rejected response = true ->
  match batch_verdict response n with Ok st => st | Raise _ => FAILED end = FAILED.
Proof.
  intros [|status_code body] n H; [reflexivity|]. cbn [rejected batch_verdict] in H |- *.
  destruct (status_code =? 200)%Z; [|reflexivity]. cbn [negb orb] in H.
  destruct body as [v|]; [|reflexivity].
  destruct v as [| | | | | |kvs]; try reflexivity.
  unfold reported_count. cbn [response_json bind py_get].
  destruct (dict_get "resourceId" kvs) as [[]|]; try discriminate H; reflexivity.
Qed.

(** The count the code takes from an answer whose [resourceId] is a list is
    the length of the list. *)
Lemma listed_verdict : forall kvs resources n,
  dict_get "resourceId" kvs = Some (PList resources) ->
  batch_verdict (Response 200%Z (JsonBody (PDict kvs))) n
  = Ok (if List.length resources =? n then CREATED else FAILED).
Proof.
  intros kvs resources n H. cbn [batch_verdict]. change (200 =? 200)%Z with true. cbn iota.
  unfold reported_count. cbn [response_json bind py_get]. rewrite H. cbn [py_len bind].
  destruct (List.length resources =? n); reflexivity.
Qed.

(** A row without identifier is matched by no update. *)
Lemma mark_without_identifier : forall st ids r, event_id r = None -> mark st ids r = r.
Proof.
  intros st ids r H. apply unmarked_row. intros id E. congruence.
Qed.




Example three_sent_two_created :
  committed (submit_batch (Response 200%Z two_created) batch_abc (get_db_connection table_abcd))
  = [pending "a" event_e1 FAILED; pending "b" event_e1 FAILED;
     pending "c" event_e1 FAILED; pending "d" event_e1 RECEIVED].
Proof. reflexivity. Qed.

Example three_sent_three_created :
  committed (submit_batch (Response 200%Z three_created) batch_abc
                          (get_db_connection table_abcd))
  = [pending "a" event_e1 CREATED; pending "b" event_e1 CREATED;
     pending "c" event_e1 CREATED; pending "d" event_e1 RECEIVED].
Proof. reflexivity. Qed.

(** An answer with status 200 and no [resourceId] counts no resource. *)
Example three_sent_none_listed :
  committed (submit_batch (Response 200%Z (JsonBody (PDict []))) batch_abc
                          (get_db_connection table_abcd))
  = [pending "a" event_e1 FAILED; pending "b" event_e1 FAILED;
     pending "c" event_e1 FAILED; pending "d" event_e1 RECEIVED].
Proof. reflexivity. Qed.

(** C10.  A response whose status code is not 200, whatever its body, makes
    every row stored under an identifier of the batch FAILED; 201 is such a
    code.  The rows outside the batch are untouched, and so is a row without
    identifier, which no update matches. *)
Theorem C10_only_200_succeeds (status_code : Z) (body : http_body)
    (batch : list (option string * pyval)) (conn : connection) :
  status_code <> 200%Z ->
  let conn' := submit_batch (Response status_code body) batch conn in
  committed conn' = map (mark FAILED (map fst batch)) (working conn)
  /\ (forall r id,
         In r (committed conn') -> event_id r = Some id -> In (Some id) (map fst batch) ->
         status r = FAILED)
  /\ (forall r, In r (working conn) -> event_id r = None -> In r (committed conn')).
Proof.
  intros Hcode conn'.
  assert (E : committed conn' = map (mark FAILED (map fst batch)) (working conn)).
  { unfold conn'. rewrite submit_batch_spec. cbn [committed batch_verdict].
    apply Z.eqb_neq in Hcode. rewrite Hcode. reflexivity. }
  split; [exact E|]. split.
  - intros r id Hin. rewrite E in Hin. eapply marked_status; eauto.
  - intros r Hin Hid. rewrite E.
    rewrite <- (mark_without_identifier FAILED (map fst batch) r Hid). apply in_map. exact Hin.
Qed.

(** Status 201 with a body that lists every resource as created. *)
Lemma C10_only_200_succeeds_witness :
  let conn' := submit_batch (Response 201%Z three_created) batch_abc
                            (get_db_connection table_abcd) in
  committed conn' = map (mark FAILED (map fst batch_abc)) table_abcd
  /\ (forall r id,
         In r (committed conn') -> event_id r = Some id -> In (Some id) (map fst batch_abc) ->
         status r = FAILED)
  /\ (forall r, In r table_abcd -> event_id r = None -> In r (committed conn')).
Proof.
  apply (C10_only_200_succeeds 201%Z three_created batch_abc (get_db_connection table_abcd)).
  discriminate.
Defined.

(** A run of the timer trigger on an empty store: the source answers with
    three open events, the first without [eventId]; the service answers the
    batch with status 201.  The two events with an identifier are FAILED
    and the event without identifier is still RECEIVED. *)
Lemma C10_missing_identifier_not_failed :
  map (fun r => (event_id r, status r))
      (db (timer_main (answering_env (Response 201%Z three_created)) static_mapping
                      {| db := []; token := NoFile |}))
  = [(None, RECEIVED); (Some "e1", FAILED); (Some "e2", FAILED)].
Proof. reflexivity. Qed.

Example status_201_fails_the_batch :
  committed (submit_batch (Response 201%Z three_created) batch_abc
                          (get_db_connection table_abcd))
  = [pending "a" event_e1 FAILED; pending "b" event_e1 FAILED;
     pending "c" event_e1 FAILED; pending "d" event_e1 RECEIVED].
Proof. reflexivity. Qed.

Example rejected_batches_run_to_the_end :
  batch_loop failing_service "Bearer tok1" static_mapping
             [(Some "a", event_e1); (Some "b", event_e1)] 1 [0; 1] 0
             (get_db_connection table_abcd)
  = (Ok tt,
     let t := [pending "a" event_e1 FAILED; pending "b" event_e1 FAILED;
               pending "c" event_e1 RECEIVED; pending "d" event_e1 RECEIVED] in
     {| committed := t; working := t |}).
Proof. reflexivity. Qed.

(** The statuses of a batch are committed before the next batch is looked
    at: when the resolver raises on the second batch, the first is CREATED
    in the committed table. *)
Example first_batch_durable :
  batch_loop accepting_service "Bearer tok1" host_mapping
             [(Some "e2", event_e2); (Some "e1", event_e1)] 1 [0; 1] 0
             (get_db_connection (db two_pending))
  = (Raise AttributeError,
     let t := [pending "e2" event_e2 CREATED; pending "e1" event_e1 RECEIVED] in
     {| committed := t; working := t |}).
Proof. reflexivity. Qed.

(* ================================================================== *)
(** * Ingestion and the uniqueness of identifiers *)

Open Scope list_scope.

Lemma ids_of_app : forall t u, ids_of (t ++ u) = (ids_of t ++ ids_of u)%list.
Proof. intros t u. unfold ids_of. apply flat_map_app. Qed.

Lemma in_ids_of : forall t id,
  In id (ids_of t) <-> exists r, In r t /\ event_id r = Some id.
Proof.
  intros t id. unfold ids_of. rewrite in_flat_map. split.
  - intros (r & Hr & Hin). exists r. split; [exact Hr|].
    destruct (event_id r) as [x|]; [|destruct Hin].
    destruct Hin as [->|[]]. reflexivity.
  - intros (r & Hr & E). exists r. split; [exact Hr|]. rewrite E. left. reflexivity.
Qed.

Lemma stored_under : forall t x,
  existsb (fun r => sql_eq (event_id r) x) t = true
  <-> exists id, x = Some id /\ In id (ids_of t).
Proof.
  intros t x. rewrite existsb_exists. split.
  - intros (r & Hr & E). destruct x as [id|].
    + exists id. split; [reflexivity|]. apply in_ids_of. exists r. split; [exact Hr|].
      apply sql_eq_some. exact E.
    + destruct (event_id r); discriminate.
  - intros (id & -> & Hin). apply in_ids_of in Hin as (r & Hr & E).
    exists r. split; [exact Hr|]. apply sql_eq_some. exact E.
Qed.

(** An insertion leaves the rows of the table where they are. *)
Lemma insert_event_extends : forall t ev, exists added, insert_event t ev = (t ++ added)%list.
Proof.
  intros t ev. unfold insert_event.
  destruct (existsb (fun r => sql_eq (event_id r) (fst ev)) t).
  - exists []. symmetry. apply app_nil_r.
  - eexists. reflexivity.
Qed.

Lemma insert_event_unique : forall t ev, unique_ids t -> unique_ids (insert_event t ev).
Proof.
  intros t ev H. unfold insert_event.
  destruct (existsb (fun r => sql_eq (event_id r) (fst ev)) t) eqn:E; [exact H|].
  unfold unique_ids. rewrite ids_of_app. cbn. rewrite app_nil_r.
  destruct (fst ev) as [id|] eqn:F.
  - apply NoDup_app; [exact H | repeat constructor; intros [] |].
    intros a Ha [Hid|[]]. subst a.
    assert (existsb (fun r => sql_eq (event_id r) (Some id)) t = true)
      by (apply stored_under; eauto).
    congruence.
  - rewrite app_nil_r. exact H.
Qed.

(** After the insertion of an event with an identifier, the identifier is in
    the table. *)
Lemma insert_event_stores : forall t id doc, In id (ids_of (insert_event t (Some id, doc))).
Proof.
  intros t id doc. unfold insert_event. cbn [fst snd].
  destruct (existsb (fun r => sql_eq (event_id r) (Some id)) t) eqn:E.
  - apply stored_under in E as (x & [= <-] & Hin). exact Hin.
  - rewrite ids_of_app. apply in_or_app. right. left. reflexivity.
Qed.

Lemma insert_events_extends : forall rows t,
  exists added, fold_left insert_event rows t = (t ++ added)%list.
Proof.
  induction rows as [|ev rows IH]; intros t; cbn [fold_left].
  - exists []. symmetry. apply app_nil_r.
  - destruct (insert_event_extends t ev) as [a1 E1]. rewrite E1.
    destruct (IH (t ++ a1)%list) as [a2 E2]. rewrite E2.
    exists (a1 ++ a2)%list. symmetry. apply app_assoc.
Qed.

Lemma insert_events_unique : forall rows t,
  unique_ids t -> unique_ids (fold_left insert_event rows t).
Proof.
  induction rows as [|ev rows IH]; intros t H; cbn [fold_left]; [exact H|].
  apply IH, insert_event_unique, H.
Qed.

Lemma insert_events_stores : forall rows t id doc,
  In (Some id, doc) rows -> In id (ids_of (fold_left insert_event rows t)).
Proof.
  induction rows as [|ev rows IH]; intros t id doc Hin; [destruct Hin|].
  cbn [fold_left]. destruct Hin as [->|Hin]; [|eapply IH; exact Hin].
  destruct (insert_events_extends rows (insert_event t (Some id, doc))) as [added ->].
  rewrite ids_of_app. apply in_or_app. left. apply insert_event_stores.
Qed.

(** Ingestion only appends: every row of the table is where it was, with
    its status and its document. *)
Lemma fetch_cases : forall response t,
  (exists rows,
      fetched_rows response = Ok rows
      /\ forallb (fun row => storable (snd row)) rows = true
      /\ fetch_instana_events response t
         = (fold_left insert_event rows t, Stored (List.length rows)))
  \/ (exists e, fetch_instana_events response t = (t, FetchFailed e)).
Proof.
  intros response t. unfold fetch_instana_events, execute_values.
  destruct (fetched_rows response) as [rows|e]; cbn [bind]; [|right; eauto].
  destruct (forallb (fun row => storable (snd row)) rows) eqn:E; cbn [bind].
  - left. exists rows. auto.
  - right. eauto.
Qed.

Lemma fetch_extends : forall response t,
  exists added, fst (fetch_instana_events response t) = (t ++ added)%list.
Proof.
  intros response t.
  destruct (fetch_cases response t) as [(rows & _ & _ & ->) | (e & ->)]; cbn [fst].
  - apply insert_events_extends.
  - exists []. symmetry. apply app_nil_r.
Qed.

Lemma fetch_unique : forall response t,
  unique_ids t -> unique_ids (fst (fetch_instana_events response t)).
Proof.
  intros response t H.
  destruct (fetch_cases response t) as [(rows & _ & _ & ->) | (e & ->)]; cbn [fst];
    [|exact H].
  apply insert_events_unique, H.
Qed.

Lemma records_of_absent : forall id t, ~ In id (ids_of t) -> records_of id t = [].
Proof.
  intros id t H. unfold records_of. induction t as [|a t IH]; [reflexivity|].
  cbn [filter]. destruct (sql_eq (event_id a) (Some id)) eqn:E.
  - exfalso. apply H. apply in_ids_of. exists a. split; [left; reflexivity|].
    apply sql_eq_some. exact E.
  - apply IH. intros Hin. apply H. apply in_ids_of in Hin as (r & Hr & Er).
    apply in_ids_of. exists r. split; [right; exact Hr | exact Er].
Qed.

(** Under the uniqueness constraint a stored identifier names one row. *)
Lemma records_of_unique : forall t r id,
  unique_ids t -> In r t -> event_id r = Some id -> records_of id t = [r].
Proof.
  unfold unique_ids. induction t as [|a t IH]; intros r id Hu Hin Hid; [destruct Hin|].
  change (ids_of (a :: t)) with
    ((match event_id a with Some x => [x] | None => [] end) ++ ids_of t)%list in Hu.
  unfold records_of. cbn [filter].
  destruct (sql_eq (event_id a) (Some id)) eqn:E.
  - apply sql_eq_some in E. rewrite E in Hu. cbn in Hu. inversion Hu as [|x l Hnotin Hnd]; subst.
    fold (records_of id t). rewrite (records_of_absent _ _ Hnotin).
    destruct Hin as [->|Hin]; [reflexivity|].
    exfalso. apply Hnotin. apply in_ids_of. eauto.
  - destruct Hin as [->|Hin].
    + apply sql_eq_some in Hid. congruence.
    + apply (IH r id); [|exact Hin|exact Hid]. eapply NoDup_app_remove_l. exact Hu.
Qed.

Lemma same_id_same_row : forall t r r' id,
  unique_ids t -> In r t -> In r' t -> event_id r = Some id -> event_id r' = Some id -> r = r'.
Proof.
  intros t r r' id Hu Hr Hr' E E'.
  pose proof (records_of_unique t r id Hu Hr E) as R.
  assert (In r' (records_of id t)) as Hin.
  { apply filter_In. split; [exact Hr'|]. apply sql_eq_some. exact E'. }
  rewrite R in Hin. destruct Hin as [->|[]]. reflexivity.
Qed.

(** An open event of the answer is among the events kept by the filter, and
    an event with a string identifier is among the rows under that
    identifier. *)
Lemma open_events_of_keeps : forall events opened doc,
  open_events_of events = Ok opened -> In doc events ->
  getitem_str doc "state" = Ok (PStr "open") -> In doc opened.
Proof.
  induction events as [|ev rest IH]; intros opened doc H Hin Hst; [destruct Hin|].
  cbn [open_events_of] in H.
  destruct (getitem_str ev "state") as [state|e] eqn:Es; [|discriminate].
  cbn [bind] in H. destruct (open_events_of rest) as [others|e] eqn:Eo; [|discriminate].
  cbn [bind] in H. inversion H; subst opened; clear H.
  destruct Hin as [->|Hin].
  - rewrite Hst in Es. inversion Es; subst state. left. reflexivity.
  - specialize (IH others doc eq_refl Hin Hst).
    destruct state; try exact IH. destruct (String.eqb s "open"); [right|]; exact IH.
Qed.

Lemma open_events_data_keeps : forall opened rows doc id,
  open_events_data opened = Ok rows -> In doc opened ->
  py_get doc "eventId" PNone = Ok (PStr id) -> In (Some id, doc) rows.
Proof.
  induction opened as [|ev rest IH]; intros rows doc id H Hin Hid; [destruct Hin|].
  cbn [open_events_data] in H.
  destruct (py_get ev "eventId" PNone) as [raw|e] eqn:Er; [|discriminate]. cbn [bind] in H.
  destruct (adapt_event_id raw) as [ev_id|e] eqn:Ea; [|discriminate]. cbn [bind] in H.
  destruct (open_events_data rest) as [others|e] eqn:Eo; [|discriminate]. cbn [bind] in H.
  inversion H; subst rows; clear H.
  destruct Hin as [->|Hin].
  - rewrite Hid in Er. inversion Er; subst raw. cbn [adapt_event_id] in Ea.
    destruct (has_char zero id); [discriminate|]. inversion Ea; subst. left. reflexivity.
  - right. eapply IH; eauto.
Qed.

Lemma fetched_rows_of_list : forall status_code events rows,
  fetched_rows (Response status_code (JsonBody (PList events))) = Ok rows ->
  exists opened, open_events_of events = Ok opened /\ open_events_data opened = Ok rows.
Proof.
  intros status_code events rows H. cbn [fetched_rows] in H.
  destruct (raise_for_status status_code); [|discriminate].
  cbn [bind response_json py_len py_iter] in H.
  destruct (open_events_of events) as [opened|e]; [|discriminate].
  exists opened. split; [reflexivity | exact H].
Qed.

(** C7.  When the source answers with a list of events that holds an open
    event whose [eventId] is the string [id], and the ingestion of the
    answer goes through (it logs what it stored), the table holds exactly
    one row under [id] afterwards; a second ingestion, whatever its answer,
    leaves that same row, and if a row was stored under [id] before the
    first ingestion (with any status) it is that row, untouched. *)
Theorem C7_idempotent_ingestion (t : table) (status_code : Z) (events : list pyval)
    (response2 : http_outcome) (doc : pyval) (id : string) (n : nat) :
  unique_ids t ->
  In doc events ->
  getitem_str doc "state" = Ok (PStr "open") ->
  py_get doc "eventId" PNone = Ok (PStr id) ->
  snd (fetch_instana_events (Response status_code (JsonBody (PList events))) t) = Stored n ->
  let t1 := fst (fetch_instana_events (Response status_code (JsonBody (PList events))) t) in
  let t2 := fst (fetch_instana_events response2 t1) in
  exists r,
    records_of id t1 = [r]
    /\ records_of id t2 = [r]
    /\ (forall r0, In r0 t -> event_id r0 = Some id -> r = r0).
Proof.
  intros Hu Hdoc Hopen Hid Hlog t1 t2.
  assert (U1 : unique_ids t1) by (apply fetch_unique, Hu).
  assert (U2 : unique_ids t2) by (apply fetch_unique, U1).
  assert (S1 : In id (ids_of t1)).
  { unfold t1.
    destruct (fetch_cases (Response status_code (JsonBody (PList events))) t)
      as [(rows & Hrows & _ & E) | (e & E)]; rewrite E in Hlog |- *; [|discriminate].
    cbn [fst]. apply fetched_rows_of_list in Hrows as (opened & Ho & Hd).
    eapply insert_events_stores, open_events_data_keeps; [exact Hd | | exact Hid].
    eapply open_events_of_keeps; eauto. }
  apply in_ids_of in S1 as (r & Hr & Er). exists r.
  destruct (fetch_extends (Response status_code (JsonBody (PList events))) t) as [a1 E1].
  destruct (fetch_extends response2 t1) as [a2 E2].
  fold t1 in E1. fold t2 in E2.
  split; [|split].
  - apply records_of_unique; assumption.
  - apply records_of_unique; [exact U2 | | exact Er].
    rewrite E2. apply in_or_app. left. exact Hr.
  - intros r0 Hr0 Er0. eapply same_id_same_row; [exact U1 | exact Hr | | exact Er | exact Er0].
    rewrite E1. apply in_or_app. left. exact Hr0.
Qed.

(** The event [e1], already delivered, comes twice in one answer and once
    more in the next. *)
Lemma C7_idempotent_ingestion_witness :
  let t := [pending "e1" event_e1 CREATED] in
  let t1 := fst (fetch_instana_events instana_e1_twice t) in
  let t2 := fst (fetch_instana_events instana_e1_twice t1) in
  exists r,
    records_of "e1" t1 = [r]
    /\ records_of "e1" t2 = [r]
    /\ (forall r0, In r0 t -> event_id r0 = Some "e1" -> r = r0).
Proof.
  apply (C7_idempotent_ingestion [pending "e1" event_e1 CREATED] 200%Z
           [event_e1; PDict [("eventId", PStr "e9"); ("state", PStr "closed")]; event_e1]
           instana_e1_twice event_e1 "e1" 2).
  - repeat constructor. intros [].
  - left. reflexivity.
  - reflexivity.
  - reflexivity.
  - reflexivity.
Defined.

(** An answer the database refuses is not stored, and neither is any part of
    it: a document with the character of code 0 beside the event [e1]. *)
Example refused_answer_stores_nothing :
  fetch_instana_events
    (Response 200%Z
       (JsonBody (PList [event_e1;
                         PDict [("eventId", PStr "e3"); ("state", PStr "open");
                                ("note", PStr (String zero ""))]])))
    []
  = ([], FetchFailed DataError).
Proof. reflexivity. Qed.

Example ingest_twice_one_row :
  let t1 := fst (fetch_instana_events instana_e1_twice []) in
  t1 = [pending "e1" event_e1 RECEIVED]
  /\ fst (fetch_instana_events instana_e1_twice t1) = t1
  /\ fst (fetch_instana_events instana_e1_twice [pending "e1" event_e1 FAILED])
     = [pending "e1" event_e1 FAILED].
Proof. repeat split; reflexivity. Qed.

(** Events without an identifier are stored under null, which conflicts with
    nothing: each ingestion adds a row. *)
Example ingest_without_identifier :
  let answer := Response 200%Z (JsonBody (PList [PDict [("state", PStr "open")]])) in
  List.length (fst (fetch_instana_events answer (fst (fetch_instana_events answer [])))) = 2.
Proof. reflexivity. Qed.

(* ================================================================== *)
(** * The batch loop *)

Lemma in_slice : forall (A : Type) (events : list A) i batch_size x,
  In x (slice events i batch_size) -> In x events.
Proof.
  intros A events i batch_size x H. unfold slice in H.
  rewrite <- (firstn_skipn i events). apply in_or_app. right.
  rewrite <- (firstn_skipn batch_size (skipn i events)). apply in_or_app. left. exact H.
Qed.

Lemma ids_of_mark : forall st ids t, ids_of (map (mark st ids) t) = ids_of t.
Proof.
  intros st ids t. unfold ids_of. induction t as [|r t IH]; [reflexivity|].
  cbn [map flat_map]. rewrite mark_event_id, IH. reflexivity.
Qed.

Section BatchLoop.

Variables (post : bhom_service) (authorization : string).
Variables (bhom_config : list (string * pyval)).
Variables (events : list (option string * pyval)) (batch_size : nat).

(** A property of the table that every status update of a slice of [events]
    preserves holds of the committed table when the loop ends, however it
    ends; nothing is left uncommitted. *)
Lemma batch_loop_invariant (P : table -> Prop) :
  (forall st i t, P t -> P (map (mark st (map fst (slice events i batch_size))) t)) ->
  forall starts n conn,
    P (working conn) -> committed conn = working conn ->
    let conn' := snd (batch_loop post authorization bhom_config events batch_size
                                 starts n conn) in
    P (committed conn') /\ committed conn' = working conn'.
Proof.
  intros Hstep. induction starts as [|i rest IH]; intros n conn HP Hc.
  - cbn. rewrite Hc. auto.
  - cbn [batch_loop].
    destruct (resolve_batch bhom_config (slice events i batch_size)) as [payload|e].
    + apply IH.
      * rewrite submit_batch_spec. cbn [working]. apply Hstep, HP.
      * rewrite submit_batch_spec. reflexivity.
    + cbn. rewrite Hc. auto.
Qed.

(** The loop ends with [Ok], or with the exception of the resolver: the
    submission of a batch raises nothing. *)
Lemma batch_loop_raises_from_resolver : forall starts n conn e,
  fst (batch_loop post authorization bhom_config events batch_size starts n conn) = Raise e ->
  exists i, In i starts /\ resolve_batch bhom_config (slice events i batch_size) = Raise e.
Proof.
  induction starts as [|i rest IH]; intros n conn e H.
  - discriminate.
  - cbn [batch_loop] in H.
    destruct (resolve_batch bhom_config (slice events i batch_size)) as [payload|e'] eqn:E.
    + destruct (IH _ _ _ H) as (j & Hj & Ej). exists j. split; [right; exact Hj | exact Ej].
    + cbn in H. inversion H; subst. exists i. split; [left; reflexivity | exact E].
Qed.

End BatchLoop.

Lemma process_events_invariant :
  forall (P : table -> Prop) env bhom_config events batch_size w,
    (forall st i t, P t -> P (map (mark st (map fst (slice events i batch_size))) t)) ->
    P (db w) ->
    P (db (snd (process_events_in_batches env bhom_config events batch_size w))).
Proof.
  intros P env bhom_config events batch_size w Hstep HP.
  unfold process_events_in_batches.
  destruct (get_valid_refresh_token (token w) (current_time env) (refresh_response env)
                                    (write_time env)) as [[tok file] calls].
  destruct tok as [refresh_token|e]; [|exact HP].
  destruct (py_range (List.length events) batch_size) as [starts|e]; [|exact HP].
  pose proof (batch_loop_invariant (bhom_post env) ("Bearer " ++ py_str refresh_token)%string
                bhom_config events batch_size P Hstep starts 0 (get_db_connection (db w))
                HP eq_refl) as [H _].
  destruct (batch_loop (bhom_post env) ("Bearer " ++ py_str refresh_token)%string bhom_config
                       events batch_size starts 0 (get_db_connection (db w))) as [r conn'].
  exact H.
Qed.

Lemma process_all_invariant :
  forall (P : table -> Prop) env bhom_config w,
    (forall st i t,
        P t ->
        P (map (mark st (map fst (slice (select_pending (db w)) i default_batch_size))) t)) ->
    P (db w) ->
    P (db (snd (process_all_events env bhom_config w))).
Proof.
  intros P env bhom_config w Hstep HP. unfold process_all_events.
  destruct (select_pending (db w)) as [|row0 rows] eqn:E; [exact HP|].
  apply process_events_invariant; assumption.
Qed.

(** ** Selection *)

Lemma select_pending_spec : forall t ev_id doc,
  In (ev_id, doc) (select_pending t)
  <-> exists r, In r t /\ event_id r = ev_id /\ event_json r = doc
                /\ (status r = RECEIVED \/ status r = FAILED).
Proof.
  intros t ev_id doc. unfold select_pending. rewrite in_map_iff. split.
  - intros (r & E & Hin). apply filter_In in Hin as [Hin Hst]. inversion E; subst.
    exists r. repeat split; [exact Hin|].
    destruct (status r); cbn in Hst; auto; discriminate.
  - intros (r & Hin & <- & <- & Hst). exists r. split; [reflexivity|].
    apply filter_In. split; [exact Hin|]. destruct Hst as [-> | ->]; reflexivity.
Qed.


(** ** A delivered row is never written again *)


Lemma sync_keeps_unique : forall env bhom_config w,
  unique_ids (db w) -> unique_ids (db (snd (process_all_events env bhom_config w))).
Proof.
  intros env bhom_config w Hu.
  apply (process_all_invariant unique_ids); [|exact Hu].
  intros st i t Ht. unfold unique_ids. rewrite ids_of_mark. exact Ht.
Qed.

Lemma timer_main_db : forall env bhom_config w,
  db (timer_main env bhom_config w)
  = db (snd (process_all_events env bhom_config
               {| db := fst (fetch_instana_events (instana_response env) (db w));
                  token := token w |})).
Proof.
  intros env bhom_config w. unfold timer_main, run_pipeline, init_db.
  destruct (fetch_instana_events (instana_response env) (db w)) as [t log]. reflexivity.
Qed.



(** ** The payload of a batch *)

Lemma resolve_batch_ok : forall bhom_config batch,
  (forall ev, In ev batch -> is_ok (resolve_bhom_mapping (snd ev) bhom_config) = true) ->
  exists payload,
    resolve_batch bhom_config batch = Ok payload /\ List.length payload = List.length batch.
Proof.
  intros bhom_config batch. induction batch as [|[ev_id doc] batch IH]; intros H.
  - exists []. split; reflexivity.
  - cbn [resolve_batch].
    pose proof (H (ev_id, doc) (or_introl eq_refl)) as H0. cbn [snd] in H0.
    destruct (resolve_bhom_mapping doc bhom_config) as [docs|e] eqn:E; [|discriminate].
    destruct (resolve_bhom_mapping_single _ _ _ E) as [p ->].
    destruct (IH (fun ev Hin => H ev (or_intror Hin))) as (payload & -> & L).
    exists (p :: payload). split; [reflexivity|]. cbn. rewrite L. reflexivity.
Qed.

Lemma accepted_verdict : forall response size,
  accepted response size -> batch_verdict response size = Ok CREATED.
Proof.
  intros response size (kvs & resources & -> & Hget & Hlen).
  rewrite (listed_verdict _ _ _ Hget), Hlen, Nat.eqb_refl. reflexivity.
Qed.

Lemma with_status_same : forall r, with_status (status r) r = r.
Proof. intros [ev_id doc st]. reflexivity. Qed.

(** Every event is in one of the slices the loop takes. *)
Lemma range_covers : forall (A : Type) (events : list A) batch_size starts x,
  py_range (List.length events) batch_size = Ok starts ->
  In x events ->
  exists i, In i starts /\ In x (slice events i batch_size).
Proof.
  intros A events batch_size starts x Hr Hin. unfold py_range in Hr.
  destruct (batch_size =? 0) eqn:Hz; [discriminate|]. apply Nat.eqb_neq in Hz.
  inversion Hr; subst starts; clear Hr.
  apply In_nth_error in Hin as [j Hj].
  assert (Hlt : j < List.length events) by (apply nth_error_Some; congruence).
  exists (j / batch_size * batch_size). split.
  - apply in_map_iff. exists (j / batch_size). split; [reflexivity|].
    apply in_seq. split; [lia|]. cbn.
    replace (List.length events + batch_size - 1)
      with ((List.length events - 1) + 1 * batch_size) by lia.
    rewrite Nat.div_add by exact Hz.
    assert (j / batch_size <= (List.length events - 1) / batch_size)
      by (apply Nat.Div0.div_le_mono; lia).
    lia.
  - apply (nth_error_In _ (j mod batch_size)). unfold slice.
    rewrite nth_error_firstn.
    assert (Hm : j mod batch_size < batch_size) by (apply Nat.mod_upper_bound; exact Hz).
    apply Nat.ltb_lt in Hm. rewrite Hm. rewrite nth_error_skipn.
    replace (j / batch_size * batch_size + j mod batch_size) with j; [exact Hj|].
    rewrite (Nat.div_mod_eq j batch_size) at 1. lia.
Qed.

Lemma default_batch_size_pos : default_batch_size <> 0.
Proof. unfold default_batch_size. lia. Qed.

(* ================================================================== *)
(** * The batches of a run, one by one *)

Lemma in_slice_firstn : forall (A : Type) (l : list A) i b x,
  In x (slice l i b) -> In x (firstn (i + b) l).
Proof.
  intros A l i. revert l. induction i as [|i IH]; intros l b x H.
  - exact H.
  - destruct l as [|a l]; [unfold slice in H; cbn in H; rewrite firstn_nil in H; destruct H|].
    cbn [Nat.add firstn]. right. apply IH. exact H.
Qed.

Lemma in_skipn : forall (A : Type) n (l : list A) x, In x (skipn n l) -> In x l.
Proof.
  intros A n l x H. rewrite <- (firstn_skipn n l). apply in_or_app. right. exact H.
Qed.

Lemma in_firstn : forall (A : Type) n (l : list A) x, In x (firstn n l) -> In x l.
Proof.
  intros A n l x H. rewrite <- (firstn_skipn n l). apply in_or_app. left. exact H.
Qed.

Lemma in_slice_skipn : forall (A : Type) (l : list A) i j b x,
  j <= i -> In x (slice l i b) -> In x (skipn j l).
Proof.
  intros A l i j b x Hle H. unfold slice in H. apply in_firstn in H.
  replace i with ((i - j) + j) in H by lia. rewrite <- skipn_skipn in H.
  eapply in_skipn. exact H.
Qed.

Lemma selected_ids_app : forall a b,
  selected_ids (a ++ b) = (selected_ids a ++ selected_ids b)%list.
Proof. intros a b. unfold selected_ids. apply flat_map_app. Qed.

Lemma in_selected_ids : forall events id,
  In id (selected_ids events) <-> In (Some id) (map fst events).
Proof.
  intros events id. unfold selected_ids. rewrite in_flat_map, in_map_iff. split.
  - intros ([ev_id doc] & Hin & H). cbn [fst] in H. destruct ev_id as [x|]; [|destruct H].
    destruct H as [->|[]]. exists (Some id, doc). split; [reflexivity | exact Hin].
  - intros ([ev_id doc] & E & Hin). cbn [fst] in E. subst ev_id.
    exists (Some id, doc). split; [exact Hin | left; reflexivity].
Qed.

Lemma nodup_app_apart : forall (A : Type) (a b : list A) x,
  NoDup (a ++ b) -> In x a -> ~ In x b.
Proof.
  intros A a. induction a as [|y a IH]; intros b x H Hin; [destruct Hin|].
  cbn in H. inversion H as [|z l Hn Hd]; subst.
  destruct Hin as [->|Hin].
  - intros Hb. apply Hn. apply in_or_app. right. exact Hb.
  - apply IH; assumption.
Qed.

(** Events with distinct identifiers: an identifier of one batch is in no
    later batch. *)
Lemma later_batches_apart : forall events batch_size k m id,
  NoDup (selected_ids events) -> k < m ->
  In (Some id) (map fst (batch_at events batch_size k)) ->
  ~ In (Some id) (map fst (batch_at events batch_size m)).
Proof.
  intros events batch_size k m id Hnd Hkm Hk Hm.
  rewrite <- (firstn_skipn (S k * batch_size) events), selected_ids_app in Hnd.
  apply in_selected_ids in Hk. apply in_selected_ids in Hm.
  apply (nodup_app_apart _ _ _ id Hnd).
  - apply in_selected_ids. apply in_selected_ids in Hk.
    apply in_map_iff in Hk as (ev & E & Hin). apply in_map_iff. exists ev. split; [exact E|].
    replace (S k * batch_size) with (k * batch_size + batch_size) by lia.
    apply in_slice_firstn. exact Hin.
  - apply in_selected_ids. apply in_selected_ids in Hm.
    apply in_map_iff in Hm as (ev & E & Hin). apply in_map_iff. exists ev. split; [exact E|].
    apply (in_slice_skipn _ _ (m * batch_size) _ batch_size); [nia | exact Hin].
Qed.

(** The selection of a run has distinct identifiers. *)
Lemma selection_distinct : forall t, unique_ids t -> NoDup (selected_ids (select_pending t)).
Proof.
  unfold unique_ids, select_pending. induction t as [|r t IH]; intros H; [constructor|].
  change (ids_of (r :: t)) with
    ((match event_id r with Some x => [x] | None => [] end) ++ ids_of t)%list in H.
  assert (Ht : NoDup (ids_of t)) by (eapply NoDup_app_remove_l; exact H).
  cbn [filter].
  destruct (status_eqb (status r) RECEIVED || status_eqb (status r) FAILED); [|apply IH, Ht].
  cbn [map]. unfold selected_ids. cbn [flat_map fst].
  destruct (event_id r) as [id|]; [|apply IH, Ht].
  cbn [app]. constructor; [|apply IH, Ht].
  cbn in H. inversion H as [|x l Hn Hd]; subst. intros Hin. apply Hn.
  apply in_selected_ids, in_map_iff in Hin as ([ev_id doc] & E & Hin). cbn [fst] in E. subst.
  apply in_map_iff in Hin as (r' & E & Hr'). apply filter_In in Hr' as [Hr' _].
  inversion E. apply in_ids_of. exists r'. split; assumption.
Qed.

Section RunOfBatches.

Variables (post : bhom_service) (authorization : string).
Variables (bhom_config : list (string * pyval)).
Variables (events : list (option string * pyval)) (batch_size : nat).

Lemma batch_loop_invariant_on (P : table -> Prop) : forall starts n conn,
  (forall st i t, In i starts -> P t -> P (map (mark st (map fst (slice events i batch_size))) t)) ->
  P (working conn) -> committed conn = working conn ->
  P (committed (snd (batch_loop post authorization bhom_config events batch_size
                                starts n conn))).
Proof.
  induction starts as [|i rest IH]; intros n conn Hstep HP Hc.
  - cbn. rewrite Hc. exact HP.
  - cbn [batch_loop].
    destruct (resolve_batch bhom_config (slice events i batch_size)) as [payload|e].
    + apply IH.
      * intros st j t Hj. apply Hstep. right. exact Hj.
      * rewrite submit_batch_spec. cbn [working]. apply Hstep; [left; reflexivity | exact HP].
      * rewrite submit_batch_spec. reflexivity.
    + cbn. rewrite Hc. exact HP.
Qed.

(** When the batches before batch [k] resolve, the loop comes to batch [k],
    with request number [k] and nothing left uncommitted. *)
Lemma batch_loop_reaches : forall len n conn k,
  committed conn = working conn -> n <= k -> k < n + len ->
  (forall m, n <= m -> m < k ->
             is_ok (resolve_batch bhom_config (batch_at events batch_size m)) = true) ->
  exists conn_k,
    committed conn_k = working conn_k
    /\ batch_loop post authorization bhom_config events batch_size (batch_starts batch_size n len) n conn
       = batch_loop post authorization bhom_config events batch_size
                    (batch_starts batch_size k (n + len - k)) k conn_k.
Proof.
  induction len as [|len IH]; intros n conn k Hc Hnk Hk Hres; [lia|].
  destruct (Nat.eq_dec n k) as [->|Hne].
  - exists conn. split; [exact Hc|]. replace (k + S len - k) with (S len) by lia. reflexivity.
  - unfold batch_starts. cbn [seq map batch_loop]. fold (batch_at events batch_size n).
    pose proof (Hres n (le_n n) ltac:(lia)) as Hn.
    destruct (resolve_batch bhom_config (batch_at events batch_size n)) as [payload|e];
      [|discriminate].
    destruct (IH (S n) (submit_batch (post n authorization payload)
                                     (batch_at events batch_size n) conn) k)
      as (conn_k & Hck & E).
    + rewrite submit_batch_spec. reflexivity.
    + lia.
    + lia.
    + intros m Hm1 Hm2. apply Hres; lia.
    + exists conn_k. split; [exact Hck|]. unfold batch_starts in E. rewrite E.
      replace (S n + len - k) with (n + S len - k) by lia. reflexivity.
Qed.

(** The verdict on batch [k] is what the committed table shows at the end
    of the loop, however the loop ends, for every row whose identifier is in
    batch [k] and in no later batch. *)
Lemma batch_verdict_durable : forall len k conn payload st,
  committed conn = working conn -> k < len ->
  (forall m, m < k ->
             is_ok (resolve_batch bhom_config (batch_at events batch_size m)) = true) ->
  resolve_batch bhom_config (batch_at events batch_size k) = Ok payload ->
  match batch_verdict (post k authorization payload)
                      (List.length (batch_at events batch_size k)) with
  | Ok st' => st'
  | Raise _ => FAILED
  end = st ->
  forall r id,
    In r (committed (snd (batch_loop post authorization bhom_config events batch_size
                                     (batch_starts batch_size 0 len) 0 conn))) ->
    event_id r = Some id ->
    In (Some id) (map fst (batch_at events batch_size k)) ->
    (forall m, k < m -> ~ In (Some id) (map fst (batch_at events batch_size m))) ->
    status r = st.
Proof.
  intros len k conn payload st Hc Hk Hres Hpay Hst r id Hin Hid Hb Hlater.
  destruct (batch_loop_reaches len 0 conn k Hc ltac:(lia) ltac:(lia))
    as (conn_k & Hck & E).
  { intros m _ Hm. apply Hres, Hm. }
  rewrite E in Hin. clear E. cbn [Nat.add] in Hin.
  replace (len - k) with (S (len - k - 1)) in Hin by lia.
  unfold batch_starts in Hin. cbn [seq map batch_loop] in Hin.
  fold (batch_at events batch_size k) in Hin. rewrite Hpay in Hin.
  revert r Hin Hid.
  apply (batch_loop_invariant_on
           (fun t => forall r, In r t -> event_id r = Some id -> status r = st)).
  - intros st' i t Hi HP r Hr Hrid.
    apply in_map_iff in Hi as (m & <- & Hm). apply in_seq in Hm.
    apply in_map_iff in Hr as (r0 & <- & Hr0). rewrite mark_event_id in Hrid.
    rewrite unmarked_row; [apply HP; assumption|].
    intros id' Hid'. rewrite Hrid in Hid'. inversion Hid'; subst id'.
    apply Hlater. lia.
  - intros r Hr Hrid. rewrite submit_batch_spec in Hr. cbn [working] in Hr.
    rewrite Hst in Hr. eapply marked_status; eauto.
  - rewrite submit_batch_spec. reflexivity.
Qed.


End RunOfBatches.

Lemma ceil_reaches : forall n batch_size k,
  batch_size <> 0 -> k * batch_size < n -> k < (n + batch_size - 1) / batch_size.
Proof.
  intros n batch_size k H Hk.
  pose proof (Nat.div_mod_eq (n + batch_size - 1) batch_size) as D.
  pose proof (Nat.mod_upper_bound (n + batch_size - 1) batch_size H) as M.
  nia.
Qed.

(** [process_events_in_batches] with a token and a batch size that is not
    zero is the loop over the batches. *)
Lemma process_events_run : forall env bhom_config events batch_size w tok file calls,
  batch_size <> 0 ->
  get_valid_refresh_token (token w) (current_time env) (refresh_response env) (write_time env)
  = (Ok tok, file, calls) ->
  let run := batch_loop (bhom_post env) ("Bearer " ++ py_str tok)%string bhom_config events
                        batch_size
                        (map (fun k => k * batch_size)
                             (seq 0 ((List.length events + batch_size - 1) / batch_size)))
                        0 (get_db_connection (db w)) in
  fst (process_events_in_batches env bhom_config events batch_size w) = fst run
  /\ db (snd (process_events_in_batches env bhom_config events batch_size w))
     = committed (snd run).
Proof.
  intros env bhom_config events batch_size w tok file calls Hz Htok run.
  unfold process_events_in_batches. rewrite Htok. unfold py_range.
  apply Nat.eqb_neq in Hz. rewrite Hz. fold run.
  destruct run as [r conn']. split; reflexivity.
Qed.

(* ================================================================== *)
(** * A rejected batch *)




Example rejected_then_accepted :
  process_events_in_batches flaky_env static_mapping events_ab 1
                            {| db := table_abcd; token := NoFile |}
  = (Ok tt,
     {| db := [pending "a" event_e1 FAILED; pending "b" event_e1 CREATED;
               pending "c" event_e1 RECEIVED; pending "d" event_e1 RECEIVED];
        token := written_file (PStr "tok1") noon |}).
Proof. reflexivity. Qed.

(* ================================================================== *)
(** * Selection, retry and the terminal status *)





(** The failed event is retried and delivered, the delivered one is left
    alone; a second run selects nothing. *)
Example retry_run :
  let w1 := timer_main sample_env static_mapping delivered_and_failed in
  select_pending (db delivered_and_failed) = [(Some "e2", event_e2)]
  /\ db w1 = [pending "e1" event_e1 CREATED; pending "e2" event_e2 CREATED]
  /\ select_pending (db w1) = []
  /\ db (timer_main sample_env static_mapping w1) = db w1.
Proof. repeat split; vm_compute; reflexivity. Qed.

(** The scenario of the specification: the event is stored RECEIVED, its
    payload is the severity level, and it is CREATED after the run. *)
Example end_to_end_scenario :
  let w0 := {| db := []; token := NoFile |} in
  fst (fetch_instana_events (instana_response scenario_env) (db w0))
  = [pending "e1" event_sev5 RECEIVED]
  /\ resolve_bhom_mapping event_sev5 severity_mapping
     = Ok [PDict [("severity", PStr "CRITICAL")]]
  /\ db (timer_main scenario_env severity_mapping w0) = [pending "e1" event_sev5 CREATED].
Proof. repeat split; vm_compute; reflexivity. Qed.

(* ================================================================== *)
(** * A failed refresh ends the run *)

Lemma world_eta : forall w, {| db := db w; token := token w |} = w.
Proof. intros [t f]. reflexivity. Qed.

(** C9.  When the guard has to call the refresh service and the call fails
    or brings no token, [get_valid_refresh_token] raises [RuntimeError];
    the synchronisation leaves the store and the token file as they were and,
    when there are pending events, ends with that exception; so does the
    whole pipeline, whose table is the one ingestion left: the rows it held
    before, untouched, followed by the newly stored ones. *)
Theorem C9_failed_refresh_is_fatal (env : environment)
    (bhom_config : list (string * pyval)) (w : world) :
  refresh_failed (refresh_response env) = true ->
  snd (get_valid_refresh_token (token w) (current_time env) (refresh_response env)
                               (write_time env)) = 1 ->
  fst (fst (get_valid_refresh_token (token w) (current_time env) (refresh_response env)
                                    (write_time env))) = Raise RuntimeError
  /\ snd (process_all_events env bhom_config w) = w
  /\ (select_pending (db w) <> [] ->
      fst (process_all_events env bhom_config w) = Raise RuntimeError)
  /\ (let t1 := fst (fetch_instana_events (instana_response env) (db w)) in
      (exists added, t1 = db w ++ added)
      /\ snd (run_pipeline env bhom_config w) = {| db := t1; token := token w |}
      /\ (select_pending t1 <> [] ->
          fst (run_pipeline env bhom_config w) = Raise RuntimeError)).
Proof.
  intros Hfail Hcall.
  destruct (guard_with_failed_refresh (token w) (current_time env) (refresh_response env)
              (write_time env) Hfail) as (r & calls & G & Hr & _).
  rewrite G in Hcall |- *. cbn [fst snd] in Hcall. specialize (Hr Hcall). subst r.
  assert (P : forall t,
             process_all_events env bhom_config {| db := t; token := token w |}
             = match select_pending t with
               | [] => (Ok tt, {| db := t; token := token w |})
               | _ :: _ => (Raise RuntimeError, {| db := t; token := token w |})
               end).
  { intros t. unfold process_all_events. cbn [db].
    destruct (select_pending t) as [|row0 rows]; [reflexivity|].
    unfold process_events_in_batches. cbn [db token]. rewrite G. reflexivity. }
  split; [reflexivity|]. split; [|split].
  - rewrite <- (world_eta w) at 1. rewrite P.
    destruct (select_pending (db w)); apply world_eta.
  - intros Hne. rewrite <- (world_eta w). rewrite P.
    destruct (select_pending (db w)); [congruence | reflexivity].
  - intros t1. split; [apply fetch_extends|].
    unfold run_pipeline, init_db. subst t1.
    destruct (fetch_instana_events (instana_response env) (db w)) as [t log] eqn:F.
    cbn [fst]. rewrite P.
    destruct (select_pending t); split; try reflexivity; congruence.
Qed.

(** Two pending events, no token file, the refresh service down. *)
Lemma C9_failed_refresh_is_fatal_witness :
  let env := refresh_down_env in
  let w := two_pending in
  fst (fst (get_valid_refresh_token (token w) (current_time env) (refresh_response env)
                                    (write_time env))) = Raise RuntimeError
  /\ snd (process_all_events env host_mapping w) = w
  /\ (select_pending (db w) <> [] ->
      fst (process_all_events env host_mapping w) = Raise RuntimeError)
  /\ (let t1 := fst (fetch_instana_events (instana_response env) (db w)) in
      (exists added, t1 = db w ++ added)
      /\ snd (run_pipeline env host_mapping w) = {| db := t1; token := token w |}
      /\ (select_pending t1 <> [] ->
          fst (run_pipeline env host_mapping w) = Raise RuntimeError)).
Proof.
  exact (C9_failed_refresh_is_fatal refresh_down_env host_mapping two_pending eq_refl eq_refl).
Defined.

Example refresh_down_run :
  run_pipeline refresh_down_env static_mapping two_pending = (Raise RuntimeError, two_pending)
  /\ timer_main refresh_down_env static_mapping two_pending = two_pending.
Proof. split; vm_compute; reflexivity. Qed.

(** An answer without the token field, and an answer with an empty token. *)
Example refresh_without_token :
  refresh_failed (Response 200%Z (JsonBody (PDict [("status", PStr "ok")]))) = true
  /\ refresh_failed (Response 200%Z (JsonBody (PDict [("json_web_token", PStr "")]))) = true
  /\ refresh_failed (Response 503%Z NotJson) = true
  /\ refresh_failed (token_response "tok1") = false.
Proof. repeat split; reflexivity. Qed.

(* ================================================================== *)
(** * What leaves the soft lookup *)

Lemma py_int_raises : forall text e, py_int text = Raise e -> e = ValueError.
Proof.
  intros text e. unfold py_int.
  match goal with |- context [let '(_, _) := ?m in _] => destruct m as [neg body] end.
  destruct (max_str_digits <? List.length (filter is_digit body)).
  - intros H. inversion H. reflexivity.
  - destruct (digits_value 0 false body); intros H; inversion H. reflexivity.
Qed.

Lemma walk_parts_raises : forall parts val e,
  walk_parts val parts = Raise e ->
  e = KeyError \/ e = IndexError \/ e = TypeError \/ e = ValueError.
Proof.
  induction parts as [|part rest IH]; intros val e H.
  - discriminate.
  - cbn [walk_parts] in H. destruct (py_in "[" part).
    + destruct (py_split "[" part) as [|key [|idx [|x xs]]];
        try (inversion H; auto; fail).
      destruct (getitem_str val key) as [inner|e1] eqn:E1; cbn [bind] in H.
      * destruct (py_int idx) as [i|e2] eqn:E2; cbn [bind] in H.
        -- destruct (getitem_int inner i) as [item|e3] eqn:E3; cbn [bind] in H.
           ++ exact (IH _ _ H).
           ++ inversion H; subst.
              destruct (getitem_int_raises _ _ _ E3) as [->|[->| ->]]; auto.
        -- inversion H; subst. rewrite (py_int_raises _ _ E2). auto.
      * inversion H; subst. destruct (getitem_str_raises _ _ _ E1) as [->| ->]; auto.
    + destruct (getitem_str val part) as [item|e1] eqn:E1; cbn [bind] in H.
      * exact (IH _ _ H).
      * inversion H; subst. destruct (getitem_str_raises _ _ _ E1) as [->| ->]; auto.
Qed.

(** X1.  Whatever the document and the path, [get_nested_value] returns a
    value ([None] included) or raises [ValueError]: a missing key, an index
    out of range and a value of the wrong type never leave it, a bracket
    that does not hold a number does. *)
Theorem get_nested_value_escapes_only_value_error (data : pyval) (key_path : string) :
  (exists v, get_nested_value data key_path = Ok v)
  \/ get_nested_value data key_path = Raise ValueError.
Proof.
  unfold get_nested_value.
  destruct (walk_parts data (py_split "." (py_replace "]" "" key_path))) as [v|e] eqn:E.
  - left. eauto.
  - destruct (walk_parts_raises _ _ _ E) as [->|[->|[->| ->]]]; eauto.
Qed.

Example lookup_edges :
  let data := PDict [("items", PList [PStr "a"; PStr "b"]); ("name", PStr "n")] in
  get_nested_value data "items[1]" = Ok (PStr "b")
  /\ get_nested_value data "items[-1]" = Ok (PStr "b")
  /\ get_nested_value data "items[2]" = Ok PNone
  /\ get_nested_value data "missing.key" = Ok PNone
  /\ get_nested_value data "name.first" = Ok PNone
  /\ get_nested_value data "name[0]" = Ok (PStr "n")
  /\ get_nested_value data "items[one]" = Raise ValueError
  /\ get_nested_value data "items[0][1]" = Raise ValueError
  /\ get_nested_value data "missing[one]" = Ok PNone.
Proof. repeat split; reflexivity. Qed.

(** X2.  On a path in the source-path syntax (each bracket holds a text
    that [int] reads) [get_nested_value] never raises, whatever the
    document. *)
Theorem get_nested_value_soft (data : pyval) (key_path : string) :
  path_wf key_path = true ->
  exists v, get_nested_value data key_path = Ok v.
Proof.
  intros H. exists (lookup_value data key_path). apply get_nested_value_total, H.
Qed.

Lemma get_nested_value_soft_witness :
  exists v, get_nested_value (PDict [("a", PList [])]) "a[3].b" = Ok v.
Proof.
  exact (get_nested_value_soft (PDict [("a", PList [])]) "a[3].b" eq_refl).
Defined.

(* ================================================================== *)
(** * What [insert_nested_key] returns *)

Lemma insert_keys_dict : forall keys d v d',
  insert_keys d keys v = Ok d' -> exists kvs, d' = PDict kvs.
Proof.
  intros [|k [|k2 rest]] d v d' H.
  - discriminate.
  - cbn in H. destruct d; try discriminate. inversion H. eauto.
  - destruct d; try discriminate. rewrite insert_keys_step in H.
    destruct (insert_keys _ (k2 :: rest) v); cbn [bind] in H; [|discriminate].
    inversion H. eauto.
Qed.

Lemma insert_keys_raises : forall keys d v e,
  keys <> [] -> insert_keys d keys v = Raise e -> e = TypeError \/ e = AttributeError.
Proof.
  induction keys as [|k rest IH]; intros d v e Hne H; [congruence|].
  destruct rest as [|k2 rest].
  - cbn in H. destruct d; inversion H; auto.
  - destruct d; try (inversion H; auto; fail). rewrite insert_keys_step in H.
    destruct (insert_keys _ (k2 :: rest) v) as [c|e'] eqn:E; cbn [bind] in H; [discriminate|].
    inversion H; subst. eapply IH; [|exact E]. discriminate.
Qed.

(** X3.  [insert_nested_key] returns a dict, or raises [TypeError] (the last
    key is assigned into something that is not a dict) or [AttributeError]
    (an inner key leads to something that is not a dict); the [keys[-1]] of
    its last line never fails. *)
Theorem insert_nested_key_outcomes (d : pyval) (dotted_key : string) (value : pyval) :
  (exists kvs, insert_nested_key d dotted_key value = Ok (PDict kvs))
  \/ insert_nested_key d dotted_key value = Raise TypeError
  \/ insert_nested_key d dotted_key value = Raise AttributeError.
Proof.
  unfold insert_nested_key.
  destruct (insert_keys d (py_split "." dotted_key) value) as [d'|e] eqn:E.
  - left. destruct (insert_keys_dict _ _ _ _ E) as [kvs ->]. eauto.
  - right. destruct (insert_keys_raises _ _ _ _ (py_split_nonempty _ _) E) as [->| ->]; auto.
Qed.

Example insert_edges :
  insert_nested_key (PDict []) "a.b.c" (PInt 1)
  = Ok (PDict [("a", PDict [("b", PDict [("c", PInt 1)])])])
  /\ insert_nested_key (PDict [("a", PStr "x")]) "a.b" (PInt 1) = Raise TypeError
  /\ insert_nested_key (PDict [("a", PStr "x")]) "a.b.c" (PInt 1) = Raise AttributeError
  /\ insert_nested_key (PDict [("a", PDict [("b", PInt 0); ("z", PInt 9)])]) "a.b" (PInt 1)
     = Ok (PDict [("a", PDict [("b", PInt 1); ("z", PInt 9)])])
  /\ insert_nested_key (PDict []) "" (PInt 1) = Ok (PDict [("", PInt 1)]).
Proof. repeat split; reflexivity. Qed.

(* ================================================================== *)
(** * Splitting a text that holds the separator once, or not at all *)

Lemma str_app_nil_r : forall s : string, (s ++ "")%string = s.
Proof. induction s as [|c s IH]; cbn; [reflexivity | rewrite IH; reflexivity]. Qed.

Lemma str_app_assoc : forall a b c : string, ((a ++ b) ++ c)%string = (a ++ (b ++ c))%string.
Proof. induction a as [|x a IH]; intros b c; cbn; [reflexivity | rewrite IH; reflexivity]. Qed.

Lemma py_in_cons_false : forall sep c s,
  py_in sep (String c s) = false ->
  String.prefix sep (String c s) = false /\ py_in sep s = false.
Proof.
  intros sep c s H. cbn [py_in] in H.
  destruct (String.prefix sep (String c s)); [discriminate | auto].
Qed.

(** A text without the separator is one piece. *)
Lemma split_go_no_sep : forall sep s cur,
  py_in sep s = false -> split_go sep 0 cur s = [(cur ++ s)%string].
Proof.
  intros sep. induction s as [|c s IH]; intros cur H.
  - cbn. rewrite str_app_nil_r. reflexivity.
  - destruct (py_in_cons_false _ _ _ H) as [Hp Hs].
    cbn [split_go]. rewrite Hp, (IH _ Hs), str_app_assoc. reflexivity.
Qed.

Lemma split_go_skip : forall sep x cur s,
  split_go sep (String.length x) cur (x ++ s)%string = split_go sep 0 cur s.
Proof.
  intros sep. induction x as [|a x IH]; intros cur s; [reflexivity|].
  cbn [String.length append split_go]. apply IH.
Qed.

Lemma prefix_app_self : forall s t, String.prefix s (s ++ t)%string = true.
Proof.
  induction s as [|a s IH]; intros t; [destruct t; reflexivity|].
  cbn [append String.prefix]. destruct (ascii_dec a a); [apply IH | congruence].
Qed.

(** A separator followed by a text without it: an empty piece and the text. *)
Lemma split_sep_then_text : forall c sep' text,
  py_in (String c sep') text = false ->
  py_split (String c sep') (String c sep' ++ text)%string = [""; text].
Proof.
  intros c sep' text H. unfold py_split.
  change (String c sep' ++ text)%string with (String c (sep' ++ text)%string).
  cbn [split_go].
  change (String c (sep' ++ text)%string) with (String c sep' ++ text)%string.
  rewrite prefix_app_self.
  replace (String.length (String c sep') - 1) with (String.length sep')
    by (cbn [String.length]; lia).
  rewrite split_go_skip, (split_go_no_sep _ _ _ H). reflexivity.
Qed.

Lemma replace_absent : forall c new s,
  has_char c s = false -> py_replace (String c "") new s = s.
Proof.
  intros c new s H. unfold py_replace, py_split.
  rewrite split_go_no_sep by (rewrite py_in_char; exact H). reflexivity.
Qed.

(* ================================================================== *)
(** * Rules one by one *)

(** X4.  A [static:] rule whose text after the prefix does not hold the
    prefix again has that text as its value, for every event and field. *)
Theorem static_rule_literal (event_data : pyval) (bhom_field literal : string) :
  py_in "static:" literal = false ->
  rule_value event_data bhom_field (PStr ("static:" ++ literal)%string) = Ok (PStr literal).
Proof.
  intros H. unfold rule_value, startswith.
  rewrite (prefix_app_self "static:" literal).
  rewrite (split_sep_then_text "s" "tatic:" literal H). reflexivity.
Qed.

Lemma static_rule_literal_witness :
  rule_value event_e1 "source" (PStr ("static:" ++ "Instana event: open")%string)
  = Ok (PStr "Instana event: open").
Proof. exact (static_rule_literal event_e1 "source" "Instana event: open" eq_refl). Defined.

(** A literal that holds the prefix again is cut there. *)
Example static_literal_cut :
  rule_value event_e1 "source" (PStr "static:a static:b") = Ok (PStr "a ")
  /\ rule_value event_e1 "source" (PStr "static:") = Ok (PStr "").
Proof. split; reflexivity. Qed.

Lemma first_present_stops : forall event_data before key after keys,
  map py_strip keys = before ++ key :: after ->
  forallb path_wf before = true ->
  Forall (fun k => lookup_value event_data k = PNone) before ->
  path_wf key = true ->
  lookup_value event_data key <> PNone ->
  first_present event_data keys = Ok (lookup_value event_data key).
Proof.
  intros event_data. induction before as [|b before IH];
    intros key after keys Hk Hwf Hnone Hkey Hval;
    destruct keys as [|k0 keys]; try discriminate; cbn [map app] in Hk;
    inversion Hk as [[Hk0 Hrest]]; cbn [first_present]; rewrite Hk0.
  - rewrite (get_nested_value_total _ _ Hkey). cbn [bind].
    destruct (lookup_value event_data key); try reflexivity. congruence.
  - cbn [forallb] in Hwf. apply andb_true_iff in Hwf as [Hb Hwf].
    inversion Hnone as [|x l Hx Hl]; subst.
    rewrite (get_nested_value_total _ _ Hb), Hx. cbn [bind is_none].
    exact (IH key after keys Hrest Hwf Hl Hkey Hval).
Qed.

(** X5.  The fallback chain stops at the first candidate that has a value:
    when the candidates before it are well formed and find nothing, and it
    is well formed and finds a value, that value is the value of the rule,
    whatever the candidates after it are; they are not looked up, so a
    malformed one among them raises nothing. *)
Theorem fallback_chain_stops_at_first_hit (event_data : pyval) (bhom_field rule : string)
    (before : list string) (key : string) (after : list string) :
  startswith "event_data:" rule = true ->
  candidate_paths rule = before ++ key :: after ->
  forallb path_wf before = true ->
  Forall (fun k => lookup_value event_data k = PNone) before ->
  path_wf key = true ->
  lookup_value event_data key <> PNone ->
  rule_value event_data bhom_field (PStr rule) = Ok (lookup_value event_data key).
Proof.
  intros Hrule Hc Hwf Hnone Hkey Hval. unfold rule_value.
  rewrite (event_data_not_static _ Hrule), Hrule.
  rewrite (second_rule_argument "event_data:" rule ltac:(discriminate) Hrule).
  cbn [bind]. eapply first_present_stops; eauto.
Qed.

Lemma fallback_chain_stops_at_first_hit_witness :
  rule_value (PDict [("b", PStr "v"); ("c", PList [])]) "out"
             (PStr "event_data:a|b|c[x]")
  = Ok (lookup_value (PDict [("b", PStr "v"); ("c", PList [])]) "b").
Proof.
  apply (fallback_chain_stops_at_first_hit
           (PDict [("b", PStr "v"); ("c", PList [])]) "out" "event_data:a|b|c[x]"
           ["a"] "b" ["c[x]"]).
  - reflexivity.
  - reflexivity.
  - reflexivity.
  - repeat constructor.
  - reflexivity.
  - discriminate.
Defined.

(** The same malformed candidate raises when it comes before the hit. *)
Example malformed_candidate_first :
  rule_value (PDict [("b", PStr "v"); ("c", PList [])]) "out" (PStr "event_data:c[x]|b")
  = Raise ValueError.
Proof. reflexivity. Qed.

(** X6.  A [func:uppercase_state] rule on a well formed source path gives
    the upper case of the value found when that value is a string, and
    raises [AttributeError] for anything else, a missing or null field
    included.  The string is one whose capital stays below code point 256
    ([upper_fits]: it holds neither the micro sign nor the y with
    diaeresis). *)
Theorem uppercase_rule_needs_a_string (event_data : pyval) (bhom_field rule : string) :
  startswith "func:" rule = true ->
  transform_name rule = "uppercase_state" ->
  path_wf (bhom_mapping_reverse_lookup bhom_field) = true ->
  upper_fits (lookup_value event_data (bhom_mapping_reverse_lookup bhom_field)) = true ->
  rule_value event_data bhom_field (PStr rule)
  = match lookup_value event_data (bhom_mapping_reverse_lookup bhom_field) with
    | PStr s => Ok (PStr (py_upper s))
    | _ => Raise AttributeError
    end.
Proof.
  intros Hrule Hname Hwf _. unfold rule_value.
  rewrite (func_not_static _ Hrule), (func_not_event_data _ Hrule), Hrule.
  rewrite (second_rule_argument "func:" rule ltac:(discriminate) Hrule).
  cbn [bind]. rewrite (get_nested_value_total _ _ Hwf). cbn [bind].
  unfold transform_name in Hname. rewrite Hname. reflexivity.
Qed.

Lemma uppercase_rule_needs_a_string_witness :
  rule_value event_e1 "status" (PStr "func: uppercase_state ")
  = match lookup_value event_e1 (bhom_mapping_reverse_lookup "status") with
    | PStr s => Ok (PStr (py_upper s))
    | _ => Raise AttributeError
    end.
Proof.
  exact (uppercase_rule_needs_a_string event_e1 "status" "func: uppercase_state "
           eq_refl eq_refl eq_refl eq_refl).
Defined.

(** Capitals beyond the letters a to z: the e with acute accent (233) has
    its capital at 201, the sharp s (223) becomes two letters, and the
    division sign (247) is no letter. *)
Example accented_capitals :
  py_upper (String (ascii_of_nat 233) (String "t" (String (ascii_of_nat 233) "")))
  = String (ascii_of_nat 201) (String "T" (String (ascii_of_nat 201) ""))
  /\ py_upper (String "a" (String (ascii_of_nat 223) "")) = "ASS"
  /\ py_upper (String (ascii_of_nat 247) "") = String (ascii_of_nat 247) "".
Proof. repeat split; reflexivity. Qed.

(** The white space of [strip] beyond the space: a candidate path followed
    by a no-break space (160) is the path. *)
Example strip_no_break_space :
  py_strip (String (ascii_of_nat 160) (String "a" (String (ascii_of_nat 133) ""))) = "a"
  /\ rule_value (PDict [("a", PStr "x"); ("b", PStr "y")]) "out"
                (PStr ("event_data:a" ++ String (ascii_of_nat 160) "|b")%string)
     = Ok (PStr "x").
Proof. repeat split; reflexivity. Qed.

Example uppercase_rule_cases :
  rule_value event_e1 "status" (PStr "func:uppercase_state") = Ok (PStr "OPEN")
  /\ rule_value (PDict [("state", PNone)]) "status" (PStr "func:uppercase_state")
     = Raise AttributeError
  /\ rule_value (PDict [("state", PInt 1)]) "status" (PStr "func:uppercase_state")
     = Raise AttributeError
  /\ rule_value (PDict []) "status" (PStr "func:severity_level") = Ok (PStr "WARNING")
  /\ rule_value (PDict []) "status" (PStr "func:priority_from_severity")
     = Ok (PStr "PRIORITY_None")
  /\ rule_value (PDict [("severity", PFloat "5.0")]) "priority" (PStr "func:severity_level")
     = Ok (PStr "CRITICAL").
Proof. repeat split; reflexivity. Qed.

(** The reverse lookup lands on a name that it maps to itself: looking a
    field up twice is looking it up once. *)
Lemma reverse_lookup_idempotent (field : string) :
  bhom_mapping_reverse_lookup (bhom_mapping_reverse_lookup field)
  = bhom_mapping_reverse_lookup field.
Proof.
  unfold bhom_mapping_reverse_lookup at 2 3. unfold reverse_map. cbn [assoc_get].
  destruct (String.eqb field "severity") eqn:E1; [reflexivity|].
  destruct (String.eqb field "status") eqn:E2; [reflexivity|].
  destruct (String.eqb field "priority") eqn:E3; [reflexivity|].
  destruct (String.eqb field "class_slots.pn_severity") eqn:E4; [reflexivity|].
  unfold bhom_mapping_reverse_lookup, reverse_map. cbn [assoc_get].
  rewrite E1, E2, E3, E4. reflexivity.
Qed.

(* ================================================================== *)
(** * Writing and reading dotted keys *)

Lemma walk_plain_parts : forall parts d v,
  Forall (fun p => py_in "[" p = false) parts ->
  lookup_keys d parts = Some v -> walk_parts d parts = Ok v.
Proof.
  induction parts as [|part rest IH]; intros d v Hp H.
  - inversion H. reflexivity.
  - inversion Hp as [|x l Hx Hl]; subst. cbn [walk_parts]. rewrite Hx.
    cbn [lookup_keys] in H. destruct d; try discriminate. cbn [getitem_str].
    destruct (dict_get part kvs) as [c|]; [|discriminate]. cbn [bind]. exact (IH _ _ Hl H).
Qed.

Lemma plain_parts : forall key,
  has_char "[" key = false ->
  Forall (fun p => py_in "[" p = false) (py_split "." key).
Proof.
  intros key H. apply Forall_forall. intros part Hin. rewrite py_in_char.
  destruct (has_char "[" part) eqn:E; [|reflexivity].
  destruct (split_go_chars _ "["%char _ _ _ _ Hin E) as [F|F]; [discriminate | congruence].
Qed.

(** X7.  What [insert_nested_key] writes under a dotted key that has no
    bracket, [get_nested_value] reads back from the result under the same
    key. *)
Theorem insert_then_get_nested_value (payload payload' : pyval) (dotted_key : string)
    (value : pyval) :
  has_char "[" dotted_key = false ->
  has_char "]" dotted_key = false ->
  insert_nested_key payload dotted_key value = Ok payload' ->
  get_nested_value payload' dotted_key = Ok value.
Proof.
  intros Ho Hc H. unfold get_nested_value. rewrite (replace_absent _ _ _ Hc).
  rewrite (walk_plain_parts _ payload' value (plain_parts _ Ho)); [reflexivity|].
  exact (insert_keys_lookup _ _ _ _ H).
Qed.

Lemma insert_then_get_nested_value_witness :
  get_nested_value
    (PDict [("class_slots", PDict [("old", PInt 0); ("pn_severity", PStr "CRITICAL")])])
    "class_slots.pn_severity"
  = Ok (PStr "CRITICAL").
Proof.
  exact (insert_then_get_nested_value
           (PDict [("class_slots", PDict [("old", PInt 0)])])
           (PDict [("class_slots", PDict [("old", PInt 0); ("pn_severity", PStr "CRITICAL")])])
           "class_slots.pn_severity" (PStr "CRITICAL") eq_refl eq_refl eq_refl).
Defined.

(** A key with a bracket is written as it stands and read as an index. *)
Example bracket_key_not_read_back :
  insert_nested_key (PDict []) "tags[0]" (PStr "x") = Ok (PDict [("tags[0]", PStr "x")])
  /\ get_nested_value (PDict [("tags[0]", PStr "x")]) "tags[0]" = Ok PNone.
Proof. split; reflexivity. Qed.

(** A key that continues another replaces or extends what the other holds. *)
Example continued_key_overwrites :
  resolve_bhom_mapping event_e1 [("a.b", PStr "static:1"); ("a", PStr "static:2")]
  = Ok [PDict [("a", PStr "2")]].
Proof. reflexivity. Qed.

(* ================================================================== *)
(** * The outcomes of the resolver *)

Lemma get_nested_value_raises : forall data key_path e,
  get_nested_value data key_path = Raise e -> e = ValueError.
Proof.
  intros data key_path e H. unfold get_nested_value in H.
  destruct (walk_parts data (py_split "." (py_replace "]" "" key_path))) as [v|e'] eqn:E;
    [discriminate|].
  destruct (walk_parts_raises _ _ _ E) as [->|[->|[->| ->]]]; inversion H; reflexivity.
Qed.

Lemma first_present_raises : forall event_data keys e,
  first_present event_data keys = Raise e -> e = ValueError.
Proof.
  intros event_data. induction keys as [|key rest IH]; intros e H; [discriminate|].
  cbn [first_present] in H.
  destruct (get_nested_value event_data (py_strip key)) as [probe|e'] eqn:E; cbn [bind] in H.
  - destruct (is_none probe); [exact (IH _ H) | discriminate].
  - inversion H; subst. exact (get_nested_value_raises _ _ _ E).
Qed.

Lemma registered_transform : forall name f,
  registry_get name CUSTOM_FUNCTIONS = Some f ->
  f = severity_level \/ f = uppercase_state \/ f = priority_from_severity.
Proof.
  intros name f. unfold CUSTOM_FUNCTIONS. cbn [registry_get].
  destruct (String.eqb name "severity_level"); [intros H; inversion H; auto|].
  destruct (String.eqb name "uppercase_state"); [intros H; inversion H; auto|].
  destruct (String.eqb name "priority_from_severity"); [intros H; inversion H; auto|].
  discriminate.
Qed.

Lemma rule_value_raises : forall event_data bhom_field rule e,
  rule_value event_data bhom_field rule = Raise e -> e = AttributeError \/ e = ValueError.
Proof.
  intros event_data bhom_field rule e H.
  destruct rule as [| | | |rule| |]; try (inversion H; auto; fail).
  unfold rule_value in H.
  destruct (startswith "static:" rule) eqn:S1.
  { rewrite (second_rule_argument "static:" rule ltac:(discriminate) S1) in H. discriminate. }
  destruct (startswith "event_data:" rule) eqn:S2.
  { rewrite (second_rule_argument "event_data:" rule ltac:(discriminate) S2) in H.
    cbn [bind] in H. right. exact (first_present_raises _ _ _ H). }
  destruct (startswith "func:" rule) eqn:S3; [|discriminate].
  rewrite (second_rule_argument "func:" rule ltac:(discriminate) S3) in H. cbn [bind] in H.
  destruct (get_nested_value event_data (bhom_mapping_reverse_lookup bhom_field))
    as [raw|e'] eqn:G; cbn [bind] in H.
  - destruct (registry_get (py_strip (rule_argument "func:" rule)) CUSTOM_FUNCTIONS)
      as [f|] eqn:R; [|discriminate].
    destruct (registered_transform _ _ R) as [->|[->| ->]]; try discriminate.
    destruct raw; inversion H; auto.
  - inversion H; subst. right. exact (get_nested_value_raises _ _ _ G).
Qed.

Lemma resolve_items_outcomes : forall event_data items kvs,
  (exists kvs', resolve_items event_data (PDict kvs) items = Ok (PDict kvs'))
  \/ resolve_items event_data (PDict kvs) items = Raise AttributeError
  \/ resolve_items event_data (PDict kvs) items = Raise ValueError
  \/ resolve_items event_data (PDict kvs) items = Raise TypeError.
Proof.
  intros event_data. induction items as [|[bhom_field rule] items IH]; intros kvs.
  - left. exists kvs. reflexivity.
  - cbn [resolve_items].
    destruct (rule_value event_data bhom_field rule) as [value|e] eqn:V; cbn [bind].
    + unfold insert_nested_key.
      destruct (insert_keys (PDict kvs) (py_split "." bhom_field) value) as [p|e] eqn:I;
        cbn [bind].
      * destruct (insert_keys_dict _ _ _ _ I) as [kvs1 ->]. apply IH.
      * destruct (insert_keys_raises _ _ _ _ (py_split_nonempty _ _) I) as [->| ->]; auto.
    + destruct (rule_value_raises _ _ _ _ V) as [->| ->]; auto.
Qed.

(** X9.  Whatever the event and the mapping, [resolve_bhom_mapping] returns
    a list of exactly one dict, or raises [AttributeError], [ValueError] or
    [TypeError]; nothing else leaves it. *)
Theorem resolve_bhom_mapping_outcomes (event_data : pyval)
    (mapping_config : list (string * pyval)) :
  (exists kvs, resolve_bhom_mapping event_data mapping_config = Ok [PDict kvs])
  \/ resolve_bhom_mapping event_data mapping_config = Raise AttributeError
  \/ resolve_bhom_mapping event_data mapping_config = Raise ValueError
  \/ resolve_bhom_mapping event_data mapping_config = Raise TypeError.
Proof.
  unfold resolve_bhom_mapping.
  destruct (resolve_items_outcomes event_data mapping_config [])
    as [[kvs ->]|[-> |[-> | ->]]]; cbn [bind]; eauto.
Qed.

Example resolver_edges :
  resolve_bhom_mapping event_e1 [] = Ok [PDict []]
  /\ resolve_bhom_mapping event_e1 [("x", PStr "unknown rule")] = Ok [PDict [("x", PStr "")]]
  /\ resolve_bhom_mapping event_e1 [("x", PInt 5)] = Raise AttributeError
  /\ resolve_bhom_mapping PNone [("x", PStr "event_data:a.b")] = Ok [PDict [("x", PStr "")]].
Proof. repeat split; reflexivity. Qed.

(** ** The payload of a batch *)

Lemma resolve_batch_raises : forall bhom_config batch e,
  resolve_batch bhom_config batch = Raise e ->
  exists ev, In ev batch /\ resolve_bhom_mapping (snd ev) bhom_config = Raise e.
Proof.
  intros bhom_config. induction batch as [|[ev_id doc] batch IH]; intros e H; [discriminate|].
  cbn [resolve_batch] in H.
  destruct (resolve_bhom_mapping doc bhom_config) as [docs|e'] eqn:E; cbn [bind] in H.
  - destruct (resolve_bhom_mapping_single _ _ _ E) as [p ->]. cbn [bind] in H.
    destruct (resolve_batch bhom_config batch) as [ps|e''] eqn:B; cbn [bind] in H;
      [discriminate|].
    inversion H; subst. destruct (IH _ eq_refl) as (ev & Hin & Hev).
    exists ev. split; [right; exact Hin | exact Hev].
  - inversion H; subst. exists (ev_id, doc). split; [left; reflexivity | exact E].
Qed.

(** X10.  The payload of a batch has one document per event, in the order
    of the events: the document at each place is the one the resolver makes
    of the event at that place. *)
Theorem resolve_batch_in_order (bhom_config : list (string * pyval))
    (batch : list (option string * pyval)) (batch_payload : list pyval) :
  resolve_batch bhom_config batch = Ok batch_payload ->
  Forall2 (fun ev p => resolve_bhom_mapping (snd ev) bhom_config = Ok [p])
          batch batch_payload.
Proof.
  revert batch_payload. induction batch as [|[ev_id doc] batch IH]; intros batch_payload H.
  - inversion H. constructor.
  - cbn [resolve_batch] in H.
    destruct (resolve_bhom_mapping doc bhom_config) as [docs|e] eqn:E; cbn [bind] in H;
      [|discriminate].
    destruct (resolve_bhom_mapping_single _ _ _ E) as [p ->]. cbn [bind] in H.
    destruct (resolve_batch bhom_config batch) as [ps|e] eqn:B; cbn [bind] in H;
      [|discriminate].
    inversion H; subst. constructor; [exact E | exact (IH _ eq_refl)].
Qed.

Lemma resolve_batch_in_order_witness :
  Forall2 (fun ev p => resolve_bhom_mapping (snd ev) host_mapping = Ok [p])
          [(Some "e2", event_e2); (None, PDict [("host", PStr "db")])]
          [PDict [("host", PStr "WEB1")]; PDict [("host", PStr "DB")]].
Proof.
  exact (resolve_batch_in_order host_mapping
           [(Some "e2", event_e2); (None, PDict [("host", PStr "db")])]
           [PDict [("host", PStr "WEB1")]; PDict [("host", PStr "DB")]] eq_refl).
Defined.

(* ================================================================== *)
(** * The guard, case by case *)

(** X11.  On a token file that holds a readable time and the key
    [json_web_token], the guard returns the stored token without a call as
    long as the age is at most ten minutes (ten minutes exactly included,
    and a time in the future too), and calls the refresh service once the
    age is above ten minutes. *)
Theorem stored_token_reused_while_fresh (data : pyval) (text : string)
    (last_time : datetime) (tok : pyval) (now : datetime) (response : http_outcome)
    (wt : datetime) :
  py_get data "time" (PStr "") = Ok (PStr text) ->
  strptime text = Some last_time ->
  getitem_str data "json_web_token" = Ok tok ->
  get_valid_refresh_token (JsonFile data) now response wt
  = if (now - last_time <=? minutes 10)%Z
    then (Ok tok, JsonFile data, 0)
    else (let '(r, file') := _create_new_refresh_token response wt (JsonFile data) in
          (r, file', 1)).
Proof.
  intros Ht Hp Hk. unfold get_valid_refresh_token, read_stored_token.
  rewrite Ht. cbn [bind]. rewrite Hp.
  replace (minutes 10) with (600 * usec_per_second)%Z by reflexivity.
  rewrite Z.leb_antisym.
  destruct (600 * usec_per_second <? now - last_time)%Z; cbn [negb]; [reflexivity|].
  rewrite Hk. reflexivity.
Qed.

(** Ten minutes to the second, and a file dated one minute ahead. *)
Lemma stored_token_reused_while_fresh_witness :
  get_valid_refresh_token
    (JsonFile (PDict [("time", PStr "2025-01-01 12:00:00"); ("json_web_token", PStr "tok1")]))
    (noon + minutes 10)%Z NoResponse (noon + minutes 10)%Z
  = if (noon + minutes 10 - noon <=? minutes 10)%Z
    then (Ok (PStr "tok1"),
          JsonFile (PDict [("time", PStr "2025-01-01 12:00:00");
                           ("json_web_token", PStr "tok1")]), 0)
    else (let '(r, file') :=
            _create_new_refresh_token NoResponse (noon + minutes 10)%Z
              (JsonFile (PDict [("time", PStr "2025-01-01 12:00:00");
                                ("json_web_token", PStr "tok1")])) in
          (r, file', 1)).
Proof.
  exact (stored_token_reused_while_fresh
           (PDict [("time", PStr "2025-01-01 12:00:00"); ("json_web_token", PStr "tok1")])
           "2025-01-01 12:00:00" noon (PStr "tok1") (noon + minutes 10)%Z NoResponse
           (noon + minutes 10)%Z eq_refl eq_refl eq_refl).
Defined.

Example freshness_boundary :
  let file := JsonFile (PDict [("time", PStr "2025-01-01 12:00:00");
                               ("json_web_token", PStr "tok1")]) in
  get_valid_refresh_token file (noon + minutes 10)%Z NoResponse noon = (Ok (PStr "tok1"), file, 0)
  /\ get_valid_refresh_token file (noon + minutes 10 + 1)%Z NoResponse noon
     = (Raise RuntimeError, file, 1)
  /\ get_valid_refresh_token file (noon - minutes 60)%Z NoResponse noon
     = (Ok (PStr "tok1"), file, 0).
Proof. repeat split; vm_compute; reflexivity. Qed.

(** X12.  A token file that decodes to something other than an object, or
    whose [time] is not a string, makes the guard raise [RuntimeError]
    without calling the refresh service and without touching the file,
    whatever the service would answer: the next call finds the same file. *)
Theorem unreadable_token_file_is_fatal (data : pyval) (now : datetime)
    (response : http_outcome) (wt : datetime) :
  unreadable_stamp data = true ->
  get_valid_refresh_token (JsonFile data) now response wt
  = (Raise RuntimeError, JsonFile data, 0).
Proof.
  intros H. unfold get_valid_refresh_token, read_stored_token.
  destruct data; try reflexivity. cbn [unreadable_stamp] in H. cbn [py_get].
  destruct (dict_get "time" kvs) as [v|]; [|discriminate]. cbn [bind].
  destruct v; try reflexivity. discriminate.
Qed.

Lemma unreadable_token_file_is_fatal_witness :
  get_valid_refresh_token (JsonFile (PList [])) noon (token_response "tok1") noon
  = (Raise RuntimeError, JsonFile (PList []), 0).
Proof.
  exact (unreadable_token_file_is_fatal (PList []) noon (token_response "tok1") noon eq_refl).
Defined.

(** The files the guard repairs: absent, empty, not JSON, an object without
    a time, an object with a time that does not parse. *)
Example repaired_token_files :
  let fresh := (Ok (PStr "tok1"), written_file (PStr "tok1") noon, 1) in
  get_valid_refresh_token NoFile noon (token_response "tok1") noon = fresh
  /\ get_valid_refresh_token EmptyFile noon (token_response "tok1") noon = fresh
  /\ get_valid_refresh_token Garbled noon (token_response "tok1") noon = fresh
  /\ get_valid_refresh_token (JsonFile (PDict [])) noon (token_response "tok1") noon = fresh
  /\ get_valid_refresh_token (JsonFile (PDict [("time", PStr "yesterday")])) noon
                             (token_response "tok1") noon = fresh
  /\ get_valid_refresh_token (JsonFile (PDict [("time", PInt 0)])) noon
                             (token_response "tok1") noon
     = (Raise RuntimeError, JsonFile (PDict [("time", PInt 0)]), 0).
Proof. repeat split; vm_compute; reflexivity. Qed.

Lemma request_new_token_truthy : forall response tok,
  request_new_token response = Ok tok -> truthy tok = true.
Proof.
  intros [|status_code body] tok H; [discriminate|]. cbn [request_new_token] in H.
  destruct (raise_for_status status_code); cbn [bind] in H; [|discriminate].
  destruct (response_json body) as [doc|]; cbn [bind] in H; [|discriminate].
  destruct (py_get doc "json_web_token" PNone) as [v|]; cbn [bind] in H; [|discriminate].
  destruct (truthy v) eqn:T; cbn [negb] in H; inversion H; subst. exact T.
Qed.

Lemma create_token_cases : forall response wt file,
  _create_new_refresh_token response wt file = (Raise RuntimeError, file)
  \/ exists tok, truthy tok = true
                 /\ _create_new_refresh_token response wt file = (Ok tok, written_file tok wt).
Proof.
  intros response wt file. unfold _create_new_refresh_token.
  destruct (request_new_token response) as [tok|e] eqn:E; [right | left; reflexivity].
  exists tok. split; [exact (request_new_token_truthy _ _ E) | reflexivity].
Qed.

Lemma read_stored_token_some : forall data now tok,
  read_stored_token data now = Ok (Some tok) -> getitem_str data "json_web_token" = Ok tok.
Proof.
  intros data now tok H. unfold read_stored_token in H.
  destruct (py_get data "time" (PStr "")) as [stamp|]; cbn [bind] in H; [|discriminate].
  destruct stamp; try discriminate.
  destruct (strptime s) as [last_time|]; [|discriminate].
  destruct (600 * usec_per_second <? now - last_time)%Z; [discriminate|].
  destruct (getitem_str data "json_web_token") as [t|]; cbn [bind] in H; inversion H.
  reflexivity.
Qed.

(** X13.  Every call of the guard ends in one of four ways: the token
    stored under [json_web_token] is returned, no call made and the file
    untouched; [RuntimeError] with no call made and the file untouched;
    [RuntimeError] after one failed call, the file untouched; or a new token
    that is not empty, after one call, in a file rewritten with the key
    [refresh_token] and the time of writing.  The service is never called
    twice, and no other exception leaves the guard. *)
Theorem get_valid_refresh_token_outcomes (file : token_file) (now : datetime)
    (response : http_outcome) (wt : datetime) :
  (exists data tok,
      file = JsonFile data /\ getitem_str data "json_web_token" = Ok tok
      /\ get_valid_refresh_token file now response wt = (Ok tok, file, 0))
  \/ get_valid_refresh_token file now response wt = (Raise RuntimeError, file, 0)
  \/ get_valid_refresh_token file now response wt = (Raise RuntimeError, file, 1)
  \/ (exists tok,
         truthy tok = true
         /\ get_valid_refresh_token file now response wt = (Ok tok, written_file tok wt, 1)).
Proof.
  assert (C : get_valid_refresh_token file now response wt
              = (let '(r, file') := _create_new_refresh_token response wt file in (r, file', 1))
              -> get_valid_refresh_token file now response wt = (Raise RuntimeError, file, 1)
                 \/ (exists tok,
                        truthy tok = true
                        /\ get_valid_refresh_token file now response wt
                           = (Ok tok, written_file tok wt, 1))).
  { intros E. rewrite E.
    destruct (create_token_cases response wt file) as [->|(tok & T & ->)]; eauto. }
  destruct file as [| | |data]; try (right; right; apply C; reflexivity).
  unfold get_valid_refresh_token in *.
  destruct (read_stored_token data now) as [[tok|]|e] eqn:R.
  - left. exists data, tok. split; [reflexivity|]. split; [|reflexivity].
    exact (read_stored_token_some _ _ _ R).
  - right; right. apply C. reflexivity.
  - destruct e; first [right; right; apply C; reflexivity | right; left; reflexivity].
Qed.

Lemma guard_raises_runtime : forall file now response wt e,
  fst (fst (get_valid_refresh_token file now response wt)) = Raise e -> e = RuntimeError.
Proof.
  intros file now response wt e H. unfold get_valid_refresh_token in H.
  assert (C : forall f, fst (fst (let '(r, file') := _create_new_refresh_token response wt f in
                                  (r, file', 1))) = Raise e -> e = RuntimeError).
  { intros f. destruct (create_token_cases response wt f) as [->|(tok & _ & ->)]; cbn;
      intros E; inversion E; reflexivity. }
  destruct file as [| | |data]; try exact (C _ H).
  destruct (read_stored_token data now) as [[tok|]|e']; try exact (C _ H).
  - discriminate.
  - destruct e'; first [exact (C _ H) | cbn in H; inversion H; reflexivity].
Qed.

(* ================================================================== *)
(** * Ingestion, event by event *)

Lemma open_events_of_raises : forall events ev e,
  In ev events -> getitem_str ev "state" = Raise e ->
  exists e', open_events_of events = Raise e'.
Proof.
  induction events as [|x events IH]; intros ev e Hin H; [destruct Hin|].
  cbn [open_events_of].
  destruct (getitem_str x "state") as [state|e0] eqn:E; cbn [bind]; [|eauto].
  destruct Hin as [->|Hin]; [congruence|].
  destruct (IH _ _ Hin H) as [e' ->]. cbn [bind]. eauto.
Qed.

(** X14.  When one event of the answer has no [state] to read (the key is
    missing, or the event is not an object), the ingestion is given up for
    the whole answer: the exception is logged and no event of the answer is
    stored, the well formed ones included. *)
Theorem stateless_event_aborts_ingestion (status_code : Z) (events : list pyval)
    (ev : pyval) (e : exn) (t : table) :
  In ev events ->
  getitem_str ev "state" = Raise e ->
  exists e', fetch_instana_events (Response status_code (JsonBody (PList events))) t
             = (t, FetchFailed e').
Proof.
  intros Hin H. unfold fetch_instana_events, fetched_rows.
  destruct (raise_for_status status_code); cbn [bind response_json py_len py_iter]; [|eauto].
  destruct (open_events_of_raises _ _ _ Hin H) as [e' ->]. cbn [bind]. eauto.
Qed.

Lemma stateless_event_aborts_ingestion_witness :
  exists e', fetch_instana_events stateless_answer [] = ([], FetchFailed e').
Proof.
  apply (stateless_event_aborts_ingestion 200%Z
           [event_e1; PDict [("eventId", PStr "e7")]; event_e2]
           (PDict [("eventId", PStr "e7")]) KeyError []).
  - right. left. reflexivity.
  - reflexivity.
Defined.

Example ingestion_edges :
  fetch_instana_events stateless_answer [] = ([], FetchFailed KeyError)
  /\ fetch_instana_events (Response 200%Z (JsonBody (PList []))) [] = ([], Stored 0)
  /\ fetch_instana_events (Response 200%Z (JsonBody (PDict []))) [] = ([], Stored 0)
  /\ fetch_instana_events (Response 200%Z (JsonBody (PDict [("events", PList [])]))) []
     = ([], FetchFailed TypeError)
  /\ fetch_instana_events (Response 200%Z (JsonBody PNone)) [] = ([], FetchFailed TypeError)
  /\ fetch_instana_events (Response 404%Z (JsonBody (PList [event_e1]))) []
     = ([], FetchFailed HTTPError)
  /\ fetch_instana_events NoResponse [] = ([], FetchFailed RequestException).
Proof. repeat split; reflexivity. Qed.

Lemma open_events_of_open : forall events opened ev,
  open_events_of events = Ok opened -> In ev opened ->
  getitem_str ev "state" = Ok (PStr "open").
Proof.
  induction events as [|x events IH]; intros opened ev H Hin.
  - inversion H; subst. destruct Hin.
  - cbn [open_events_of] in H.
    destruct (getitem_str x "state") as [state|] eqn:E; cbn [bind] in H; [|discriminate].
    destruct (open_events_of events) as [others|]; cbn [bind] in H; [|discriminate].
    inversion H; subst; clear H.
    destruct state; try (eapply IH; [reflexivity | exact Hin]).
    destruct (String.eqb s "open") eqn:S; [|eapply IH; [reflexivity | exact Hin]].
    apply String.eqb_eq in S. subst s.
    destruct Hin as [<-|Hin]; [exact E | eapply IH; [reflexivity | exact Hin]].
Qed.

Lemma open_events_data_docs : forall opened rows row,
  open_events_data opened = Ok rows -> In row rows -> In (snd row) opened.
Proof.
  induction opened as [|event opened IH]; intros rows row H Hin.
  - inversion H; subst. destruct Hin.
  - cbn [open_events_data] in H.
    destruct (py_get event "eventId" PNone) as [raw|]; cbn [bind] in H; [|discriminate].
    destruct (adapt_event_id raw) as [ev_id|]; cbn [bind] in H; [|discriminate].
    destruct (open_events_data opened) as [others|]; cbn [bind] in H; [|discriminate].
    inversion H; subst; clear H.
    destruct Hin as [<-|Hin]; [left; reflexivity | right; eapply IH; [reflexivity | exact Hin]].
Qed.

Lemma insert_events_rows : forall rows t r,
  In r (fold_left insert_event rows t) ->
  In r t \/ exists row, In row rows
                        /\ r = {| event_id := fst row; event_json := snd row;
                                  status := RECEIVED |}.
Proof.
  induction rows as [|row rows IH]; intros t r H; [left; exact H|].
  cbn [fold_left] in H. destruct (IH _ _ H) as [Hin|(row' & Hr & E)].
  - unfold insert_event in Hin.
    destruct (existsb (fun r0 => sql_eq (event_id r0) (fst row)) t); [left; exact Hin|].
    apply in_app_or in Hin as [Hin|[<-|[]]]; [left; exact Hin|].
    right. exists row. split; [left; reflexivity | reflexivity].
  - right. exists row'. split; [right; exact Hr | exact E].
Qed.

(** X15.  Every row an ingestion adds is RECEIVED and holds an event whose
    [state] is the string [open]; events in any other state are not
    stored. *)
Theorem ingestion_stores_open_events_only (response : http_outcome) (t : table) (r : row) :
  In r (fst (fetch_instana_events response t)) ->
  In r t
  \/ (status r = RECEIVED /\ getitem_str (event_json r) "state" = Ok (PStr "open")).
Proof.
  destruct (fetch_cases response t) as [(rows & F & _ & ->) | (e & ->)]; cbn [fst]; [|auto].
  intros H. destruct (insert_events_rows _ _ _ H) as [Hin|(row & Hrow & ->)]; [auto|].
  right. split; [reflexivity|]. cbn [event_json].
  unfold fetched_rows in F. destruct response as [|status_code body]; [discriminate|].
  destruct (raise_for_status status_code); cbn [bind] in F; [|discriminate].
  destruct (response_json body) as [events|]; cbn [bind] in F; [|discriminate].
  destruct (py_len events); cbn [bind] in F; [|discriminate].
  destruct (py_iter events) as [items|]; cbn [bind] in F; [|discriminate].
  destruct (open_events_of items) as [opened|] eqn:O; cbn [bind] in F; [|discriminate].
  eapply open_events_of_open; [exact O|]. eapply open_events_data_docs; eauto.
Qed.

Lemma ingestion_stores_open_events_only_witness :
  let r := pending "e1" event_e1 RECEIVED in
  In r [pending "e0" event_e2 CREATED]
  \/ (status r = RECEIVED /\ getitem_str (event_json r) "state" = Ok (PStr "open")).
Proof.
  apply (ingestion_stores_open_events_only instana_e1_twice [pending "e0" event_e2 CREATED]
           (pending "e1" event_e1 RECEIVED)).
  right. left. reflexivity.
Defined.

Lemma insert_event_present : forall t id doc,
  In id (ids_of t) -> insert_event t (Some id, doc) = t.
Proof.
  intros t id doc H. unfold insert_event. cbn [fst].
  assert (E : existsb (fun r => sql_eq (event_id r) (Some id)) t = true)
    by (apply stored_under; eauto).
  rewrite E. reflexivity.
Qed.

Lemma insert_events_present : forall rows t,
  (forall row, In row rows -> exists id, fst row = Some id /\ In id (ids_of t)) ->
  fold_left insert_event rows t = t.
Proof.
  induction rows as [|[ev_id doc] rows IH]; intros t H; [reflexivity|].
  cbn [fold_left]. destruct (H (ev_id, doc) (or_introl eq_refl)) as (id & E & Hid).
  cbn [fst] in E. subst ev_id. rewrite (insert_event_present _ _ _ Hid).
  apply IH. intros row Hin. apply H. right. exact Hin.
Qed.

(** X16.  Ingesting the same answer a second time changes nothing, provided
    every open event of the answer has an identifier: the table after two
    ingestions is the table after one. *)
Theorem ingestion_twice_is_ingestion_once (response : http_outcome) (t : table) :
  (forall rows row, fetched_rows response = Ok rows -> In row rows -> fst row <> None) ->
  fst (fetch_instana_events response (fst (fetch_instana_events response t)))
  = fst (fetch_instana_events response t).
Proof.
  intros Hid.
  destruct (fetch_cases response t) as [(rows & F & _ & E) | (e & E)]; rewrite E; cbn [fst].
  - destruct (fetch_cases response (fold_left insert_event rows t))
      as [(rows' & F' & _ & E') | (e' & E')]; rewrite E'; cbn [fst]; [|reflexivity].
    rewrite F in F'. inversion F'; subst rows'.
    apply insert_events_present. intros [ev_id doc] Hin.
    destruct ev_id as [id|]; [|destruct (Hid _ _ F Hin); reflexivity].
    exists id. split; [reflexivity|]. eapply insert_events_stores. exact Hin.
  - rewrite E. reflexivity.
Qed.

Lemma ingestion_twice_is_ingestion_once_witness :
  fst (fetch_instana_events instana_e1_twice
         (fst (fetch_instana_events instana_e1_twice [pending "e0" event_e2 FAILED])))
  = fst (fetch_instana_events instana_e1_twice [pending "e0" event_e2 FAILED]).
Proof.
  apply (ingestion_twice_is_ingestion_once instana_e1_twice [pending "e0" event_e2 FAILED]).
  intros rows row H Hin. inversion H; subst.
  destruct Hin as [<-|[<-|[]]]; discriminate.
Defined.

(* ================================================================== *)
(** * What a synchronisation writes *)

Lemma verdict_written : forall response n,
  match batch_verdict response n with Ok st => st | Raise _ => FAILED end = CREATED
  \/ match batch_verdict response n with Ok st => st | Raise _ => FAILED end = FAILED.
Proof.
  intros [|status_code body] n; [right; reflexivity|]. cbn [batch_verdict].
  destruct (status_code =? 200)%Z; [|right; reflexivity].
  destruct (reported_count body) as [count|]; cbn [bind]; [|right; reflexivity].
  destruct (count =? n); cbn [negb]; auto.
Qed.

Lemma rewritten_refl : forall t, Forall2 rewritten t t.
Proof. induction t as [|r t IH]; constructor; [left; reflexivity | exact IH]. Qed.

Lemma rewritten_mark : forall st ids t0 t,
  st = CREATED \/ st = FAILED ->
  Forall2 rewritten t0 t -> Forall2 rewritten t0 (map (mark st ids) t).
Proof.
  intros st ids t0 t Hst H. induction H as [|r r' t0 t Hr _ IH]; cbn [map]; constructor;
    [|exact IH].
  unfold mark. destruct (existsb (sql_eq (event_id r')) ids); [|exact Hr].
  destruct Hr as [->|[->| ->]]; destruct Hst as [->| ->]; unfold rewritten; auto.
Qed.

Section Rewrites.

Variables (post : bhom_service) (authorization : string).
Variables (bhom_config : list (string * pyval)).
Variables (events : list (option string * pyval)) (batch_size : nat).

Lemma batch_loop_rewrites : forall starts n conn t0,
  Forall2 rewritten t0 (working conn) -> committed conn = working conn ->
  Forall2 rewritten t0
          (committed (snd (batch_loop post authorization bhom_config events batch_size
                                      starts n conn))).
Proof.
  induction starts as [|i rest IH]; intros n conn t0 H Hc.
  - cbn. rewrite Hc. exact H.
  - cbn [batch_loop].
    destruct (resolve_batch bhom_config (slice events i batch_size)) as [payload|e].
    + apply IH; rewrite submit_batch_spec; [|reflexivity].
      cbn [working]. apply rewritten_mark; [apply verdict_written | exact H].
    + cbn. rewrite Hc. exact H.
Qed.

End Rewrites.

Lemma sync_rewrites : forall env bhom_config w,
  Forall2 rewritten (db w) (db (snd (process_all_events env bhom_config w))).
Proof.
  intros env bhom_config w. unfold process_all_events.
  destruct (select_pending (db w)) as [|row0 rows]; [apply rewritten_refl|].
  unfold process_events_in_batches.
  destruct (get_valid_refresh_token (token w) (current_time env) (refresh_response env)
                                    (write_time env)) as [[tok file] calls].
  destruct tok as [refresh_token|e]; [|apply rewritten_refl].
  destruct (py_range (List.length (row0 :: rows)) default_batch_size) as [starts|e];
    [|apply rewritten_refl].
  pose proof (batch_loop_rewrites (bhom_post env) ("Bearer " ++ py_str refresh_token)%string
                bhom_config (row0 :: rows) default_batch_size starts 0
                (get_db_connection (db w)) (db w) (rewritten_refl _) eq_refl) as H.
  destruct (batch_loop (bhom_post env) ("Bearer " ++ py_str refresh_token)%string bhom_config
                       (row0 :: rows) default_batch_size starts 0 (get_db_connection (db w)))
    as [r conn'].
  exact H.
Qed.

(** What an ingestion appends are rows built from the rows of the answer. *)
Lemma insert_events_added : forall rows t,
  exists added,
    fold_left insert_event rows t = t ++ added
    /\ forall r, In r added ->
                 exists row, In row rows
                             /\ r = {| event_id := fst row; event_json := snd row;
                                       status := RECEIVED |}.
Proof.
  induction rows as [|row rows IH]; intros t; cbn [fold_left].
  - exists []. split; [symmetry; apply app_nil_r | intros r []].
  - destruct (IH (insert_event t row)) as (added & E & H). rewrite E. unfold insert_event.
    destruct (existsb (fun r0 => sql_eq (event_id r0) (fst row)) t).
    + exists added. split; [reflexivity|].
      intros r Hr. destruct (H r Hr) as (row' & Hrow' & ->). exists row'. split; [right|]; auto.
    + eexists (_ :: added). rewrite <- app_assoc. split; [reflexivity|].
      intros r [<-|Hr].
      * exists row. split; [left|]; reflexivity.
      * destruct (H r Hr) as (row' & Hrow' & ->). exists row'. split; [right|]; auto.
Qed.

Lemma fetched_rows_open : forall response rows row,
  fetched_rows response = Ok rows -> In row rows ->
  getitem_str (snd row) "state" = Ok (PStr "open").
Proof.
  intros response rows row F Hrow.
  unfold fetched_rows in F. destruct response as [|status_code body]; [discriminate|].
  destruct (raise_for_status status_code); cbn [bind] in F; [|discriminate].
  destruct (response_json body) as [events|]; cbn [bind] in F; [|discriminate].
  destruct (py_len events); cbn [bind] in F; [|discriminate].
  destruct (py_iter events) as [items|]; cbn [bind] in F; [|discriminate].
  destruct (open_events_of items) as [opened|] eqn:O; cbn [bind] in F; [|discriminate].
  eapply open_events_of_open; [exact O|]. eapply open_events_data_docs; eauto.
Qed.

(** X17.  A run of the pipeline deletes no row and changes no identifier
    and no stored document.  The ingestion leaves the table it found,
    followed by the rows it adds, each of them RECEIVED and holding an event
    whose [state] is [open]; the synchronisation leaves the table of the
    ingestion, row by row, with each row either as it was or with its
    status rewritten to CREATED or to FAILED.  No status is ever set back
    to RECEIVED. *)
Theorem pipeline_rewrites_statuses_only (env : environment)
    (bhom_config : list (string * pyval)) (w : world) :
  let ingested := fst (fetch_instana_events (instana_response env) (db w)) in
  (exists added,
      ingested = db w ++ added
      /\ Forall (fun r => status r = RECEIVED
                          /\ getitem_str (event_json r) "state" = Ok (PStr "open")) added)
  /\ Forall2 rewritten ingested (db (timer_main env bhom_config w)).
Proof.
  intros ingested. split.
  - unfold ingested.
    destruct (fetch_cases (instana_response env) (db w)) as [(rows & F & _ & ->) | (e & ->)];
      cbn [fst].
    + destruct (insert_events_added rows (db w)) as (added & E & H).
      exists added. split; [exact E|]. apply Forall_forall. intros r Hr.
      destruct (H r Hr) as (row & Hrow & ->). split; [reflexivity|]. cbn [event_json].
      eapply fetched_rows_open; eauto.
    + exists []. split; [symmetry; apply app_nil_r | constructor].
  - rewrite timer_main_db.
    apply (sync_rewrites env bhom_config
             {| db := fst (fetch_instana_events (instana_response env) (db w));
                token := token w |}).
Qed.

(** The run of the scenario: the ingestion adds the event as RECEIVED and
    the synchronisation rewrites it to CREATED. *)
Example scenario_rows :
  fst (fetch_instana_events (instana_response scenario_env) [])
  = [pending "e1" event_sev5 RECEIVED]
  /\ db (timer_main scenario_env severity_mapping {| db := []; token := NoFile |})
     = [pending "e1" event_sev5 CREATED].
Proof. split; reflexivity. Qed.

(* ================================================================== *)
(** * The batches of a run *)

Lemma slice_shift : forall (A : Type) (l : list A) batch_size k,
  slice l (S k * batch_size) batch_size = slice (skipn batch_size l) (k * batch_size) batch_size.
Proof.
  intros A l batch_size k. unfold slice. rewrite skipn_skipn.
  replace (S k * batch_size) with (k * batch_size + batch_size) by lia. reflexivity.
Qed.

Lemma concat_slices : forall (A : Type) batch_size m (l : list A),
  List.length l <= m * batch_size ->
  concat (map (fun i => slice l i batch_size) (map (fun k => k * batch_size) (seq 0 m))) = l.
Proof.
  intros A batch_size. induction m as [|m IH]; intros l H.
  - destruct l; [reflexivity | cbn in H; lia].
  - cbn [seq map concat]. rewrite <- seq_shift, !map_map.
    rewrite (map_ext (fun k => slice l (S k * batch_size) batch_size)
                     (fun k => slice (skipn batch_size l) (k * batch_size) batch_size))
      by (intros k; apply slice_shift).
    rewrite <- (map_map (fun k => k * batch_size)
                        (fun i => slice (skipn batch_size l) i batch_size)).
    rewrite IH by (rewrite length_skipn; lia).
    unfold slice. cbn [skipn]. apply firstn_skipn.
Qed.

Lemma ceil_covers : forall n batch_size,
  batch_size <> 0 -> n <= (n + batch_size - 1) / batch_size * batch_size.
Proof.
  intros n batch_size H.
  pose proof (Nat.div_mod_eq (n + batch_size - 1) batch_size) as D.
  pose proof (Nat.mod_upper_bound (n + batch_size - 1) batch_size H) as M.
  nia.
Qed.

Lemma ceil_tight : forall n batch_size k,
  batch_size <> 0 -> k < (n + batch_size - 1) / batch_size -> k * batch_size < n.
Proof.
  intros n batch_size k H Hk.
  pose proof (Nat.div_mod_eq (n + batch_size - 1) batch_size) as D.
  nia.
Qed.

(** X18.  The batches of a run partition the selected events in order: put
    end to end they are the selection, none is empty and none is longer
    than the batch size.  A batch size of zero is refused with
    [ValueError]. *)
Theorem batches_partition_the_selection (A : Type) (events : list A)
    (batch_size : nat) (starts : list nat) :
  py_range (List.length events) batch_size = Ok starts ->
  concat (map (fun i => slice events i batch_size) starts) = events
  /\ Forall (fun i => 1 <= List.length (slice events i batch_size) <= batch_size) starts.
Proof.
  intros H. unfold py_range in H.
  destruct (batch_size =? 0) eqn:Z; [discriminate|]. apply Nat.eqb_neq in Z.
  inversion H; subst starts; clear H. split.
  - apply concat_slices, ceil_covers, Z.
  - apply Forall_forall. intros i Hi. apply in_map_iff in Hi as (k & <- & Hk).
    apply in_seq in Hk. pose proof (ceil_tight (List.length events) batch_size k Z) as T.
    unfold slice. rewrite length_firstn, length_skipn. lia.
Qed.

Lemma batches_partition_the_selection_witness :
  concat (map (fun i => slice [1; 2; 3; 4; 5] i 2) [0; 2; 4]) = [1; 2; 3; 4; 5]
  /\ Forall (fun i => 1 <= List.length (slice [1; 2; 3; 4; 5] i 2) <= 2) [0; 2; 4].
Proof.
  exact (batches_partition_the_selection nat [1; 2; 3; 4; 5] 2 [0; 2; 4] eq_refl).
Defined.

Example range_edges :
  py_range 0 3 = Ok [] /\ py_range 3 3 = Ok [0] /\ py_range 4 3 = Ok [0; 3]
  /\ py_range 4 0 = Raise ValueError
  /\ slice [1; 2; 3; 4] 3 3 = [4].
Proof. repeat split; reflexivity. Qed.

(* ================================================================== *)
(** * Where the exceptions of a run come from *)

(** X19.  A synchronisation ends without an exception, or with the
    [RuntimeError] of the guard, or with the exception the resolver raises
    on one of the pending events; the submission of a batch and the writing
    of its statuses raise nothing. *)
Theorem process_all_events_outcomes (env : environment)
    (bhom_config : list (string * pyval)) (w : world) :
  fst (process_all_events env bhom_config w) = Ok tt
  \/ (fst (process_all_events env bhom_config w) = Raise RuntimeError
      /\ fst (fst (get_valid_refresh_token (token w) (current_time env)
                                           (refresh_response env) (write_time env)))
         = Raise RuntimeError)
  \/ (exists ev e,
         In ev (select_pending (db w))
         /\ resolve_bhom_mapping (snd ev) bhom_config = Raise e
         /\ fst (process_all_events env bhom_config w) = Raise e).
Proof.
  unfold process_all_events.
  destruct (select_pending (db w)) as [|row0 rows]; [left; reflexivity|].
  unfold process_events_in_batches.
  destruct (get_valid_refresh_token (token w) (current_time env) (refresh_response env)
                                    (write_time env)) as [[tok file] calls] eqn:G.
  destruct tok as [refresh_token|e].
  - destruct (py_range (List.length (row0 :: rows)) default_batch_size) as [starts|e] eqn:R.
    + destruct (batch_loop (bhom_post env) ("Bearer " ++ py_str refresh_token)%string
                           bhom_config (row0 :: rows) default_batch_size starts 0
                           (get_db_connection (db w))) as [r conn'] eqn:L.
      cbn [fst]. destruct r as [[]|e]; [left; reflexivity|]. right; right.
      destruct (batch_loop_raises_from_resolver (bhom_post env)
                  ("Bearer " ++ py_str refresh_token)%string bhom_config (row0 :: rows)
                  default_batch_size starts 0 (get_db_connection (db w)) e)
        as (i & _ & B); [rewrite L; reflexivity|].
      destruct (resolve_batch_raises _ _ _ B) as (ev & Hin & Hev).
      exists ev, e. split; [eapply in_slice; exact Hin|]. split; [exact Hev | reflexivity].
    + unfold py_range in R. destruct (default_batch_size =? 0) eqn:Z; [|discriminate].
      apply Nat.eqb_eq in Z. destruct (default_batch_size_pos Z).
  - right; left. cbn [fst].
    assert (e = RuntimeError).
    { apply (guard_raises_runtime (token w) (current_time env) (refresh_response env)
               (write_time env)). rewrite G. reflexivity. }
    subst e. split; reflexivity.
Qed.

(* ================================================================== *)
(** * A run in which every batch gets the same verdict *)

Section UniformMarks.

Variable st : event_status.
Variable ids : nat -> list (option string).

Lemma uniform_marks_keep : forall starts t r,
  In r t -> status r = st ->
  In r (fold_left (fun t i => map (mark st (ids i)) t) starts t).
Proof.
  induction starts as [|i rest IH]; intros t r Hin Hst; [exact Hin|].
  cbn [fold_left]. apply IH; [|exact Hst].
  replace r with (mark st (ids i) r) at 1; [apply in_map; exact Hin|].
  unfold mark. destruct (existsb (sql_eq (event_id r)) (ids i)); [|reflexivity].
  rewrite <- Hst. apply with_status_same.
Qed.

Lemma uniform_marks_reach : forall starts t r id i,
  In r t -> event_id r = Some id -> In i starts -> In (Some id) (ids i) ->
  In (with_status st r) (fold_left (fun t i => map (mark st (ids i)) t) starts t).
Proof.
  induction starts as [|i0 rest IH]; intros t r id i Hin Hid Hi Hids; [destruct Hi|].
  cbn [fold_left].
  destruct (existsb (sql_eq (event_id r)) (ids i0)) eqn:E.
  - apply uniform_marks_keep; [|reflexivity].
    replace (with_status st r) with (mark st (ids i0) r); [apply in_map; exact Hin|].
    unfold mark. rewrite E. reflexivity.
  - destruct Hi as [->|Hi].
    + assert (existsb (sql_eq (event_id r)) (ids i) = true) by (apply in_batch_ids; eauto).
      congruence.
    + apply (IH _ r id i); [|exact Hid|exact Hi|exact Hids].
      replace r with (mark st (ids i0) r) at 1; [apply in_map; exact Hin|].
      unfold mark. rewrite E. reflexivity.
Qed.

Lemma uniform_marks_ids : forall starts t,
  ids_of (fold_left (fun t i => map (mark st (ids i)) t) starts t) = ids_of t.
Proof.
  induction starts as [|i rest IH]; intros t; [reflexivity|].
  cbn [fold_left]. rewrite IH. apply ids_of_mark.
Qed.

End UniformMarks.

Section UniformLoop.

Variables (post : bhom_service) (authorization : string).
Variables (bhom_config : list (string * pyval)).
Variables (events : list (option string * pyval)) (batch_size : nat).
Variable st : event_status.

Hypothesis events_resolve :
  forall ev, In ev events -> is_ok (resolve_bhom_mapping (snd ev) bhom_config) = true.
Hypothesis same_verdict :
  forall n payload batch_len,
    match batch_verdict (post n authorization payload) batch_len with
    | Ok s => s
    | Raise _ => FAILED
    end = st.

Lemma batch_loop_uniform : forall starts n conn,
  committed conn = working conn ->
  batch_loop post authorization bhom_config events batch_size starts n conn
  = (Ok tt,
     let t' := fold_left
                 (fun t i => map (mark st (map fst (slice events i batch_size))) t)
                 starts (working conn) in
     {| committed := t'; working := t' |}).
Proof.
  induction starts as [|i rest IH]; intros n conn Hc.
  - destruct conn as [c wk]. cbn in *. subst. reflexivity.
  - cbn [batch_loop fold_left].
    destruct (resolve_batch_ok bhom_config (slice events i batch_size)) as (payload & E & L).
    { intros ev Hin. apply events_resolve. eapply in_slice. exact Hin. }
    rewrite E, submit_batch_spec, same_verdict.
    rewrite IH by reflexivity. reflexivity.
Qed.

End UniformLoop.

(** X20.  When the guard hands out a token, the pending events resolve and
    the service rejects every batch (it is down, or answers with an error),
    the synchronisation ends without an exception and every pending row
    with an identifier is FAILED afterwards, ready to be selected by the
    next run.  The mapping is one that writes into no value taken from an
    event ([keys_private]), so that a resolution here is a resolution of
    the source. *)
Theorem rejected_run_fails_pending (env : environment)
    (bhom_config : list (string * pyval)) (w : world) (r : row) (id : string) :
  unique_ids (db w) ->
  In r (db w) -> event_id r = Some id ->
  In (Some id, event_json r) (select_pending (db w)) ->
  is_ok (fst (fst (get_valid_refresh_token (token w) (current_time env)
                                           (refresh_response env) (write_time env)))) = true ->
  keys_private bhom_config = true ->
  (forall ev, In ev (select_pending (db w)) ->
              is_ok (resolve_bhom_mapping (snd ev) bhom_config) = true) ->
  (forall n authorization payload, rejected (bhom_post env n authorization payload) = true) ->
  fst (process_all_events env bhom_config w) = Ok tt
  /\ records_of id (db (snd (process_all_events env bhom_config w))) = [with_status FAILED r]
  /\ In (Some id, event_json r)
        (select_pending (db (snd (process_all_events env bhom_config w)))).
Proof.
  intros Hu Hin Hid Hsel Htok _ Hres Hrej.
  assert (Main : fst (process_all_events env bhom_config w) = Ok tt
                 /\ records_of id (db (snd (process_all_events env bhom_config w)))
                    = [with_status FAILED r]).
  { unfold process_all_events.
    destruct (select_pending (db w)) as [|row0 rows] eqn:Es; [destruct Hsel|].
    rewrite <- Es in *. unfold process_events_in_batches.
    destruct (get_valid_refresh_token (token w) (current_time env) (refresh_response env)
                                      (write_time env)) as [[tok file] calls].
    destruct tok as [tok|e]; [|discriminate].
    destruct (py_range (List.length (select_pending (db w))) default_batch_size)
      as [starts|e] eqn:Er.
    2:{ unfold py_range in Er.
        destruct (default_batch_size =? 0) eqn:Z; [|discriminate].
        apply Nat.eqb_eq in Z. destruct (default_batch_size_pos Z). }
    rewrite (batch_loop_uniform (bhom_post env) ("Bearer " ++ py_str tok)%string bhom_config
               (select_pending (db w)) default_batch_size FAILED Hres
               (fun n payload len => rejected_verdict _ len (Hrej n _ payload)))
      by reflexivity.
    cbn [fst snd db committed working get_db_connection]. split; [reflexivity|].
    destruct (range_covers _ _ _ _ _ Er Hsel) as (i & Hi & Hs).
    apply records_of_unique.
    - unfold unique_ids.
      rewrite (uniform_marks_ids FAILED
                 (fun i => map fst (slice (select_pending (db w)) i default_batch_size))).
      exact Hu.
    - apply (uniform_marks_reach FAILED
               (fun i => map fst (slice (select_pending (db w)) i default_batch_size))
               starts (db w) r id i Hin Hid Hi).
      apply in_map_iff. exists (Some id, event_json r). split; [reflexivity | exact Hs].
    - exact Hid. }
  destruct Main as [M1 M2]. split; [exact M1|]. split; [exact M2|].
  apply select_pending_spec. exists (with_status FAILED r).
  split; [|cbn; auto].
  assert (In (with_status FAILED r)
             (records_of id (db (snd (process_all_events env bhom_config w)))))
    by (rewrite M2; left; reflexivity).
  unfold records_of in H. apply filter_In in H. tauto.
Qed.

Lemma rejected_run_fails_pending_witness :
  let env := {| instana_response := NoResponse; current_time := noon;
                refresh_response := token_response "tok1"; write_time := noon;
                bhom_post := failing_service |} in
  let w := delivered_and_failed in
  let r := pending "e2" event_e2 FAILED in
  fst (process_all_events env static_mapping w) = Ok tt
  /\ records_of "e2" (db (snd (process_all_events env static_mapping w)))
     = [with_status FAILED r]
  /\ In (Some "e2", event_json r)
        (select_pending (db (snd (process_all_events env static_mapping w)))).
Proof.
  apply (rejected_run_fails_pending
           {| instana_response := NoResponse; current_time := noon;
              refresh_response := token_response "tok1"; write_time := noon;
              bhom_post := failing_service |}
           static_mapping delivered_and_failed (pending "e2" event_e2 FAILED) "e2").
  - repeat constructor; cbn; intuition discriminate.
  - right. left. reflexivity.
  - reflexivity.
  - left. reflexivity.
  - reflexivity.
  - reflexivity.
  - intros ev [<-|[]]. reflexivity.
  - reflexivity.
Defined.

(* ================================================================== *)
(** * Invariants of a run *)

(** X21.  A run keeps the identifiers of the table unique: ingestion stores
    no second row under an identifier that the table, or an earlier event
    of the same answer, already has, and the synchronisation changes no
    identifier. *)
Theorem run_keeps_identifiers_unique (env : environment)
    (bhom_config : list (string * pyval)) (w : world) :
  unique_ids (db w) -> unique_ids (db (timer_main env bhom_config w)).
Proof.
  intros Hu. rewrite timer_main_db. apply sync_keeps_unique. cbn [db].
  apply fetch_unique, Hu.
Qed.

Lemma run_keeps_identifiers_unique_witness :
  unique_ids (db (timer_main scenario_env severity_mapping delivered_and_failed)).
Proof.
  apply (run_keeps_identifiers_unique scenario_env severity_mapping delivered_and_failed).
  repeat constructor; cbn; intuition discriminate.
Defined.

(** X22.  A row stored without an identifier is never given a status: no
    update matches it, so a synchronisation leaves it exactly as it is, and
    while it is RECEIVED it is selected again by every run. *)
Theorem row_without_identifier_never_updated (env : environment)
    (bhom_config : list (string * pyval)) (w : world) (r : row) :
  In r (db w) -> event_id r = None ->
  In r (db (snd (process_all_events env bhom_config w))).
Proof.
  intros Hin Hid. apply (process_all_invariant (fun t => In r t)); [|exact Hin].
  intros st i t Ht.
  rewrite <- (unmarked_row st (map fst (slice (select_pending (db w)) i default_batch_size)) r).
  - apply in_map. exact Ht.
  - intros id E. congruence.
Qed.

Lemma row_without_identifier_never_updated_witness :
  let r := {| event_id := None; event_json := event_e2; status := RECEIVED |} in
  In r (db (snd (process_all_events sample_env static_mapping
                   {| db := [r; pending "e1" event_e1 RECEIVED]; token := NoFile |}))).
Proof.
  apply (row_without_identifier_never_updated sample_env static_mapping
           {| db := [{| event_id := None; event_json := event_e2; status := RECEIVED |};
                     pending "e1" event_e1 RECEIVED];
              token := NoFile |}
           {| event_id := None; event_json := event_e2; status := RECEIVED |}).
  - left. reflexivity.
  - reflexivity.
Defined.

Example row_without_identifier_resubmitted :
  let r := {| event_id := None; event_json := event_e2; status := RECEIVED |} in
  let w := {| db := [r; pending "e1" event_e1 RECEIVED]; token := NoFile |} in
  db (timer_main sample_env static_mapping w) = [r; pending "e1" event_e1 CREATED]
  /\ select_pending (db (timer_main sample_env static_mapping w)) = [(None, event_e2)].
Proof. split; vm_compute; reflexivity. Qed.

(* ================================================================== *)
(** * The verdict on a batch, in the table a run leaves *)

(** X24.  In a run that comes to submit batch [k] (the guard hands out the
    token, the events of the earlier batches and of the batch resolve) over
    events with distinct identifiers, the verdict on the batch is what the
    table shows when the run is over, however the run goes on: the rows of
    the batch are CREATED when the answer has status 200 and lists as many
    resources as the batch has events, and FAILED when it lists another
    number of resources or has another status.  The mapping is one that
    writes into no value taken from an event ([keys_private]). *)
Theorem batch_outcome_reaches_the_table (env : environment)
    (bhom_config : list (string * pyval)) (events : list (option string * pyval))
    (batch_size k : nat) (w : world) (tok : pyval) (file : token_file) (calls : nat)
    (payload : list pyval) (st : event_status) :
  batch_size <> 0 ->
  keys_private bhom_config = true ->
  NoDup (selected_ids events) ->
  get_valid_refresh_token (token w) (current_time env) (refresh_response env) (write_time env)
  = (Ok tok, file, calls) ->
  k * batch_size < List.length events ->
  (forall m, m < k ->
             is_ok (resolve_batch bhom_config (batch_at events batch_size m)) = true) ->
  resolve_batch bhom_config (batch_at events batch_size k) = Ok payload ->
  (accepted (bhom_post env k ("Bearer " ++ py_str tok)%string payload)
            (List.length (batch_at events batch_size k))
   /\ st = CREATED)
  \/ (exists kvs resources,
         bhom_post env k ("Bearer " ++ py_str tok)%string payload
         = Response 200%Z (JsonBody (PDict kvs))
         /\ dict_get "resourceId" kvs = Some (PList resources)
         /\ List.length resources <> List.length (batch_at events batch_size k)
         /\ st = FAILED)
  \/ (exists status_code body,
         bhom_post env k ("Bearer " ++ py_str tok)%string payload = Response status_code body
         /\ status_code <> 200%Z
         /\ st = FAILED) ->
  forall r id,
    In r (db (snd (process_events_in_batches env bhom_config events batch_size w))) ->
    event_id r = Some id ->
    In (Some id) (map fst (batch_at events batch_size k)) ->
    status r = st.
Proof.
  intros Hz _ Hnd Htok Hk Hres Hpay Hcase r id Hin Hid Hb.
  destruct (process_events_run env bhom_config events batch_size w tok file calls Hz Htok)
    as [_ Ed].
  rewrite Ed in Hin.
  assert (Hv : match batch_verdict (bhom_post env k ("Bearer " ++ py_str tok)%string payload)
                       (List.length (batch_at events batch_size k)) with
               | Ok st' => st'
               | Raise _ => FAILED
               end = st).
  { destruct Hcase as [[Hacc ->] | [(kvs & resources & -> & Hget & Hne & ->)
                                   | (status_code & body & -> & Hne & ->)]].
    - rewrite (accepted_verdict _ _ Hacc). reflexivity.
    - rewrite (listed_verdict _ _ _ Hget). apply Nat.eqb_neq in Hne. rewrite Hne. reflexivity.
    - cbn [batch_verdict]. apply Z.eqb_neq in Hne. rewrite Hne. reflexivity. }
  apply (batch_verdict_durable (bhom_post env) _ bhom_config events batch_size
           _ k (get_db_connection (db w)) payload st eq_refl (ceil_reaches _ _ _ Hz Hk)
           Hres Hpay Hv r id Hin Hid Hb).
  intros m Hm. eapply later_batches_apart; eauto.
Qed.

(** The second batch of the run of [flaky_env], which the service accepts. *)
Lemma batch_outcome_reaches_the_table_witness :
  let t := db (snd (process_events_in_batches flaky_env static_mapping events_ab 1
                                              {| db := table_abcd; token := NoFile |})) in
  records_of "b" t = [pending "b" event_e1 CREATED]
  /\ (forall r id,
         In r t -> event_id r = Some id ->
         In (Some id) (map fst (batch_at events_ab 1 1)) ->
         status r = CREATED).
Proof.
  split; [reflexivity|].
  apply (batch_outcome_reaches_the_table flaky_env static_mapping events_ab 1 1
           {| db := table_abcd; token := NoFile |} (PStr "tok1")
           (written_file (PStr "tok1") noon) 1 [PDict [("source", PStr "instana")]] CREATED).
  - discriminate.
  - reflexivity.
  - repeat constructor; cbn; intuition discriminate.
  - reflexivity.
  - cbn. lia.
  - intros m Hm. assert (m = 0) by lia. subst m. reflexivity.
  - reflexivity.
  - left. split; [|reflexivity].
    exists [("resourceId", PList [PStr "r"])], [PStr "r"]. repeat split; reflexivity.
Defined.

(** X25.  Under the uniqueness constraint the selection of a run, in
    whatever order the database returns it, holds no identifier twice, so
    that an event with an identifier is in one batch of the run and in no
    later one. *)
Theorem selection_has_distinct_identifiers (t : table)
    (events : list (option string * pyval)) (batch_size k m : nat) (id : string) :
  unique_ids t ->
  Permutation events (select_pending t) ->
  k < m ->
  In (Some id) (map fst (batch_at events batch_size k)) ->
  NoDup (selected_ids events)
  /\ ~ In (Some id) (map fst (batch_at events batch_size m)).
Proof.
  intros Hu Hperm Hkm Hk.
  assert (Hnd : NoDup (selected_ids events)).
  { apply (Permutation_NoDup (l := selected_ids (select_pending t))).
    - unfold selected_ids. apply Permutation_flat_map, Permutation_sym, Hperm.
    - apply selection_distinct, Hu. }
  split; [exact Hnd|]. eapply later_batches_apart; eauto.
Qed.

(** The selection of a table of four rows, the last row first. *)
Lemma selection_has_distinct_identifiers_witness :
  let events := [(Some "d", event_e1); (Some "a", event_e1); (Some "b", event_e1);
                 (Some "c", event_e1)] in
  NoDup (selected_ids events)
  /\ ~ In (Some "a") (map fst (batch_at events 2 1)).
Proof.
  apply (selection_has_distinct_identifiers table_abcd
           [(Some "d", event_e1); (Some "a", event_e1); (Some "b", event_e1);
            (Some "c", event_e1)] 2 0 1 "a").
  - repeat constructor; cbn; intuition discriminate.
  - change (select_pending table_abcd)
      with ([(Some "a", event_e1); (Some "b", event_e1); (Some "c", event_e1)]
            ++ [(Some "d", event_e1)]).
    apply Permutation_cons_append.
  - lia.
  - right. left. reflexivity.
Defined.
